(** * PagerDuty API client (plugins/pagerduty/src/api/client.ts)

    A shallow embedding of [PagerDutyClient]: URL construction, the shared
    [request] status classifier, the typed GET accessors and [triggerAlarm],
    together with the fragments of the JavaScript runtime the client leans on
    (property access on decoded JSON, [Array.prototype.join],
    [JSON.stringify], and a JSON reader used to inspect the POST body). *)

From Stdlib Require Import String Ascii List NArith Bool Lia DecimalString.
Import ListNotations.
Set Warnings "-register-all".
Open Scope list_scope.
Open Scope string_scope.

(** ** JavaScript values and exceptions *)

(** Values the client handles: what [response.json()] decodes, plus
    [undefined] (a missing property, an omitted optional field).  Strings are
    the UTF-8 bytes of the text.  A Number is carried as its canonical decimal
    rendering (the result of [Number::toString]), which is the only
    observation the client can make of it.  An object lists its own
    properties as written; reading a property takes the last binding of the
    name, as [JSON.parse] does for a repeated key. *)
Inductive jsval : Type :=
| JUndefined
| JNull
| JBool (b : bool)
| JNum (repr : string)
| JStr (s : string)
| JArr (elements : list jsval)
| JObj (members : list (string * jsval)).

(** [class UnauthorizedError extends Error {}] and
    [class NotFoundError extends Error {}] are thrown without arguments;
    [Error] is the generic failure with its message; [TypeError] and
    [SyntaxError] are raised by the runtime.  [Rejection] stands for whatever
    else a collaborator's promise may reject with. *)
Inductive exn : Type :=
| UnauthorizedError
| NotFoundError
| Error (message : string)
| TypeError
| SyntaxError
| Rejection (reason : string).

(** A settled promise: rejected with an exception or fulfilled with a value. *)
Definition result (A : Type) : Type := (exn + A)%type.

(** ** Collaborators *)

(** The options object handed to [fetch]; its declaration is in [./types],
    the fields are those [client.ts] fills in.  Headers are kept in the
    order they are written. *)
Record RequestOptions : Type := {
  method : string;
  headers : list (string * string);
  body : option string
}.

(** The [Response] the transport hands back, as far as the client observes
    it: [status], and what [json()] settles to ([None] when the body is not
    well-formed JSON, which makes [json()] reject with a [SyntaxError]). *)
Record Response : Type := {
  status : N;
  json_body : option jsval
}.

(** [response.ok]: the status is in the range 200-299. *)
Definition ok (response : Response) : bool :=
  ((200 <=? status response) && (status response <=? 299))%N.

Definition Response_json (response : Response) : result jsval :=
  match json_body response with
  | Some v => inr v
  | None => inl SyntaxError
  end.

(** The collaborators injected at construction, each by what its promise
    settles to. *)
Record DiscoveryApi : Type := { getBaseUrl : string -> result string }.
Record FetchApi : Type := { fetch : string -> RequestOptions -> result Response }.
Record ConfigApi : Type := { getOptionalString : string -> option string }.

(** [ClientApiConfig], as [client.ts] reads it: [eventsBaseUrl] may be
    missing. *)
Record ClientApiConfig : Type := {
  eventsBaseUrl : option string;
  discoveryApi : DiscoveryApi;
  fetchApi : FetchApi
}.

(** Modelled from the spec: the declaration of [TriggerAlarmRequest] lives in
    [./types], which is not part of the sources at hand; the spec describes
    the user name as an optional field. *)
Record TriggerAlarmRequest : Type := {
  integrationKey : string;
  source : string;
  description : string;
  userName : option string
}.

(** ** Calls to collaborators, logged *)

(** Every await on a collaborator is recorded with what it settled to. *)
Inductive event : Type :=
| EvGetBaseUrl (pluginId : string) (settled : result string)
| EvFetch (url : string) (options : RequestOptions) (settled : result Response).

(** An asynchronous computation: the collaborator calls it made, in order,
    and how its promise settled. *)
Definition M (A : Type) : Type := (list event * result A)%type.

Definition trace {A} (m : M A) : list event := fst m.
Definition outcome {A} (m : M A) : result A := snd m.

Definition ret {A} (a : A) : M A := ([], inr a).
Definition throw {A} (e : exn) : M A := ([], inl e).
Definition lift {A} (r : result A) : M A := ([], r).

Definition bind {A B} (m : M A) (k : A -> M B) : M B :=
  match m with
  | (t, inl e) => (t, inl e)
  | (t, inr a) => let (t', r) := k a in ((t ++ t')%list, r)
  end.

Notation "x <- m ;; k" := (bind m (fun x => k))
  (at level 61, m at next level, right associativity).

Definition await_getBaseUrl (config : ClientApiConfig) (pluginId : string)
  : M string :=
  let settled := getBaseUrl (discoveryApi config) pluginId in
  ([EvGetBaseUrl pluginId settled], settled).

Definition await_fetch (config : ClientApiConfig) (url : string)
    (options : RequestOptions) : M Response :=
  let settled := fetch (fetchApi config) url options in
  ([EvFetch url options settled], settled).

(** ** Runtime fragments used by [request] *)

(** The property names the client reads off a decoded body.  None of them is
    an array index, [length], or a member of a built-in prototype, so only an
    own property of a decoded object can answer. *)
Inductive field : Type :=
| services | service | incidents | change_events | oncalls | errors.

Definition field_name (f : field) : string :=
  match f with
  | services => "services"
  | service => "service"
  | incidents => "incidents"
  | change_events => "change_events"
  | oncalls => "oncalls"
  | errors => "errors"
  end.

(** Own property of an object, last binding first. *)
Fixpoint own_property (members : list (string * jsval)) (name : string)
  : option jsval :=
  match members with
  | [] => None
  | (k, v) :: rest =>
      match own_property rest name with
      | Some v' => Some v'
      | None => if String.eqb k name then Some v else None
      end
  end.

(** [value.f] and [const { f } = value]: a [TypeError] on [undefined] and
    [null], otherwise the property, [undefined] when there is none. *)
Definition Get (value : jsval) (f : field) : result jsval :=
  match value with
  | JUndefined | JNull => inl TypeError
  | JObj members =>
      match own_property members (field_name f) with
      | Some v => inr v
      | None => inr JUndefined
      end
  | _ => inr JUndefined
  end.

(** [Array.prototype.join], over the conversion of one element. *)
Definition join_with (to_string : jsval -> result string) (sep : string)
  : list jsval -> result string :=
  let element (x : jsval) : result string :=
    match x with
    | JUndefined | JNull => inr ""
    | _ => to_string x
    end in
  fix join_from (elements : list jsval) : result string :=
    match elements with
    | [] => inr ""
    | [x] => element x
    | x :: rest =>
        match element x with
        | inl e => inl e
        | inr s =>
            match join_from rest with
            | inl e => inl e
            | inr s' => inr (s ++ sep ++ s')
            end
        end
    end.

(** [ToString] on a decoded value.  An array converts through [join(",")].
    A plain object converts to ["[object Object]"] unless it has an own
    property [toString]: that property is not callable, and neither it nor
    [valueOf] then yields a primitive, so the conversion throws. *)
Fixpoint ToString (v : jsval) : result string :=
  match v with
  | JUndefined => inr "undefined"
  | JNull => inr "null"
  | JBool true => inr "true"
  | JBool false => inr "false"
  | JNum repr => inr repr
  | JStr s => inr s
  | JArr elements => join_with ToString "," elements
  | JObj members =>
      match own_property members "toString" with
      | Some _ => inl TypeError
      | None => inr "[object Object]"
      end
  end.

Definition join (sep : string) (elements : list jsval) : result string :=
  join_with ToString sep elements.

(** [errors.map((error: string) => error)]: only an array has a callable
    [map]; the callback is the identity. *)
Definition map_identity (value : jsval) : result (list jsval) :=
  match value with
  | JArr elements => inr (map (fun error => error) elements)
  | _ => inl TypeError
  end.

(** [`${response.status}`]: a status is a non-negative integer. *)
Definition status_to_string (n : N) : string :=
  NilEmpty.string_of_uint (N.to_uint n).

(** ** [JSON.stringify] *)

Definition dquote : ascii := "034"%char.
Definition backslash : ascii := "092"%char.

Definition hex_digit (n : N) : ascii :=
  match n with
  | 0 => "0" | 1 => "1" | 2 => "2" | 3 => "3" | 4 => "4" | 5 => "5"
  | 6 => "6" | 7 => "7" | 8 => "8" | 9 => "9" | 10 => "a" | 11 => "b"
  | 12 => "c" | 13 => "d" | 14 => "e" | _ => "f"
  end%N%char.

(** One character of [QuoteJSONString]: the two-character escapes, a
    [\u00xx] escape for the other control characters, anything else as is. *)
Definition quote_char (c : ascii) : string :=
  let n := N_of_ascii c in
  if (n =? 8)%N then String backslash "b"
  else if (n =? 9)%N then String backslash "t"
  else if (n =? 10)%N then String backslash "n"
  else if (n =? 12)%N then String backslash "f"
  else if (n =? 13)%N then String backslash "r"
  else if (n =? 34)%N then String backslash (String dquote "")
  else if (n =? 92)%N then String backslash (String backslash "")
  else if (n <? 32)%N then
    String backslash
      (String "u" (String "0" (String "0"
        (String (hex_digit (n / 16)) (String (hex_digit (n mod 16)) "")))))
  else String c "".

Fixpoint quote_chars (s : string) : string :=
  match s with
  | EmptyString => ""
  | String c rest => quote_char c ++ quote_chars rest
  end.

Definition QuoteJSONString (s : string) : string :=
  String dquote (quote_chars s ++ String dquote "").

Definition is_finite (repr : string) : bool :=
  negb (String.eqb repr "NaN" || String.eqb repr "Infinity"
        || String.eqb repr "-Infinity").

(** [SerializeJSONProperty] without indentation: [None] is [undefined].  An
    [undefined] element of an array is written [null]; a property whose value
    is [undefined] is left out.  An object is given by its properties in
    enumeration order. *)
Fixpoint JSON_stringify (v : jsval) : option string :=
  match v with
  | JUndefined => None
  | JNull => Some "null"
  | JBool true => Some "true"
  | JBool false => Some "false"
  | JNum repr => Some (if is_finite repr then repr else "null")
  | JStr s => Some (QuoteJSONString s)
  | JArr elements =>
      Some ("[" ++ String.concat ","
                     (map (fun x => match JSON_stringify x with
                                    | Some s => s
                                    | None => "null"
                                    end) elements) ++ "]")
  | JObj members =>
      Some ("{" ++ String.concat ","
                     (flat_map (fun kv => match kv with
                                          | (k, x) =>
                                              match JSON_stringify x with
                                              | Some s => [QuoteJSONString k ++ ":" ++ s]
                                              | None => []
                                              end
                                          end) members) ++ "}")
  end.

(** ** The client *)

(** [client.ts], lines 43-44. *)
Definition commonGetServiceParams : string :=
  "time_zone=UTC&include[]=integrations&include[]=escalation_policies".

(** [PagerDutyClient.fromConfig], lines 47-60. *)
Definition fromConfig (configApi : ConfigApi) (discovery : DiscoveryApi)
    (transport : FetchApi) : ClientApiConfig :=
  let configured :=
    match getOptionalString configApi "pagerDuty.eventsBaseUrl" with
    | Some configured => configured
    | None => "https://events.pagerduty.com/v2"
    end in
  {| eventsBaseUrl := Some configured;
     discoveryApi := discovery;
     fetchApi := transport |}.

(** [request], lines 159-179: one fetch, then the status classifier. *)
Definition request (config : ClientApiConfig) (url : string)
    (options : RequestOptions) : M Response :=
  response <- await_fetch config url options ;;
  if (status response =? 401)%N then throw UnauthorizedError
  else if (status response =? 404)%N then throw NotFoundError
  else if negb (ok response) then
    payload <- lift (Response_json response) ;;
    errs <- lift (Get payload errors) ;;
    mapped <- lift (map_identity errs) ;;
    joined <- lift (join " " mapped) ;;
    let message :=
      "Request failed with " ++ status_to_string (status response)
        ++ ", " ++ joined in
    throw (Error message)
  else ret response.

(** [getByUrl], lines 147-157: the GET options, then [response.json()]. *)
Definition getByUrl_options : RequestOptions :=
  {| method := "GET";
     headers := [("Accept", "application/vnd.pagerduty+json;version=2");
                 ("Content-Type", "application/json")];
     body := None |}.

Definition getByUrl (config : ClientApiConfig) (url : string) : M jsval :=
  response <- request config url getByUrl_options ;;
  lift (Response_json response).

(** Lines 63-71. *)
Definition getServiceByIntegrationKey (config : ClientApiConfig)
    (integrationKey : string) : M jsval :=
  let params := commonGetServiceParams ++ "&query=" ++ integrationKey in
  base <- await_getBaseUrl config "proxy" ;;
  let url := base ++ "/pagerduty/services?" ++ params in
  decoded <- getByUrl config url ;;
  lift (Get decoded services).

(** Lines 73-81. *)
Definition getServiceByServiceId (config : ClientApiConfig)
    (serviceId : string) : M jsval :=
  let params := commonGetServiceParams in
  base <- await_getBaseUrl config "proxy" ;;
  let url := base ++ "/pagerduty/services/" ++ serviceId ++ "?" ++ params in
  decoded <- getByUrl config url ;;
  lift (Get decoded service).

(** Lines 83-91. *)
Definition getIncidentsByServiceId (config : ClientApiConfig)
    (serviceId : string) : M jsval :=
  let params :=
    "time_zone=UTC&sort_by=created_at&statuses[]=triggered&statuses[]=acknowledged&service_ids[]="
      ++ serviceId in
  base <- await_getBaseUrl config "proxy" ;;
  let url := base ++ "/pagerduty/incidents?" ++ params in
  decoded <- getByUrl config url ;;
  lift (Get decoded incidents).

(** Lines 93-102. *)
Definition getChangeEventsByServiceId (config : ClientApiConfig)
    (serviceId : string) : M jsval :=
  let params := "limit=5&time_zone=UTC&sort_by=timestamp" in
  base <- await_getBaseUrl config "proxy" ;;
  let url :=
    base ++ "/pagerduty/services/" ++ serviceId ++ "/change_events?" ++ params in
  decoded <- getByUrl config url ;;
  lift (Get decoded change_events).

(** Lines 104-112. *)
Definition getOnCallByPolicyId (config : ClientApiConfig)
    (policyId : string) : M jsval :=
  let params :=
    "time_zone=UTC&include[]=users&escalation_policy_ids[]=" ++ policyId in
  base <- await_getBaseUrl config "proxy" ;;
  let url := base ++ "/pagerduty/oncalls?" ++ params in
  decoded <- getByUrl config url ;;
  lift (Get decoded oncalls).

(** [triggerAlarm], lines 114-145.  First the object literal handed to
    [JSON.stringify]; an omitted user name is [undefined]. *)
Definition triggerAlarm_event (alarm : TriggerAlarmRequest) : jsval :=
  JObj [("event_action", JStr "trigger");
        ("routing_key", JStr (integrationKey alarm));
        ("client", JStr "Backstage");
        ("client_url", JStr (source alarm));
        ("payload",
         JObj [("summary", JStr (description alarm));
               ("source", JStr (source alarm));
               ("severity", JStr "error");
               ("class", JStr "manual trigger");
               ("custom_details",
                JObj [("user", match userName alarm with
                               | Some name => JStr name
                               | None => JUndefined
                               end)])])].

Definition triggerAlarm_options (alarm : TriggerAlarmRequest)
  : RequestOptions :=
  {| method := "POST";
     headers := [("Content-Type", "application/json; charset=UTF-8");
                 ("Accept", "application/json, text/plain, */*")];
     body := JSON_stringify (triggerAlarm_event alarm) |}.

Definition triggerAlarm (config : ClientApiConfig)
    (alarm : TriggerAlarmRequest) : M Response :=
  let options := triggerAlarm_options alarm in
  let url :=
    match eventsBaseUrl config with
    | Some configured => configured
    | None => "https://events.pagerduty.com/v2"
    end in
  request config (url ++ "/enqueue") options.

(** A call on the [PagerDutyApi] interface, one constructor per method, and
    what it resolves to. *)
Inductive operation : Type :=
| GetServiceByIntegrationKey (integrationKey : string)
| GetServiceByServiceId (serviceId : string)
| GetIncidentsByServiceId (serviceId : string)
| GetChangeEventsByServiceId (serviceId : string)
| GetOnCallByPolicyId (policyId : string)
| TriggerAlarm (alarm : TriggerAlarmRequest).

Inductive resolved : Type :=
| Decoded (value : jsval)
| Raw (response : Response).

Definition call (config : ClientApiConfig) (op : operation) : M resolved :=
  match op with
  | GetServiceByIntegrationKey key =>
      v <- getServiceByIntegrationKey config key ;; ret (Decoded v)
  | GetServiceByServiceId id =>
      v <- getServiceByServiceId config id ;; ret (Decoded v)
  | GetIncidentsByServiceId id =>
      v <- getIncidentsByServiceId config id ;; ret (Decoded v)
  | GetChangeEventsByServiceId id =>
      v <- getChangeEventsByServiceId config id ;; ret (Decoded v)
  | GetOnCallByPolicyId id =>
      v <- getOnCallByPolicyId config id ;; ret (Decoded v)
  | TriggerAlarm alarm =>
      r <- triggerAlarm config alarm ;; ret (Raw r)
  end.

(** ** Reading JSON text

    A reader for the JSON grammar, used to inspect the text that
    [triggerAlarm] posts and to decode the bodies of example responses. *)

Definition is_ws (c : ascii) : bool :=
  let n := N_of_ascii c in
  ((n =? 32) || (n =? 9) || (n =? 10) || (n =? 13))%N.

Fixpoint skip_ws (s : string) : string :=
  match s with
  | EmptyString => s
  | String c rest => if is_ws c then skip_ws rest else s
  end.

Definition is_digit (c : ascii) : bool :=
  let n := N_of_ascii c in ((48 <=? n) && (n <=? 57))%N.

Definition hex_value (c : ascii) : option N :=
  let n := N_of_ascii c in
  if ((48 <=? n) && (n <=? 57))%N then Some (n - 48)%N
  else if ((97 <=? n) && (n <=? 102))%N then Some (n - 87)%N
  else if ((65 <=? n) && (n <=? 70))%N then Some (n - 55)%N
  else None.

Definition hex4 (a b c d : ascii) : option N :=
  match hex_value a, hex_value b, hex_value c, hex_value d with
  | Some x, Some y, Some z, Some w => Some (((x * 16 + y) * 16 + z) * 16 + w)%N
  | _, _, _, _ => None
  end.

Definition is_high_surrogate (unit : N) : bool :=
  ((55296 <=? unit) && (unit <=? 56319))%N.
Definition is_low_surrogate (unit : N) : bool :=
  ((56320 <=? unit) && (unit <=? 57343))%N.

(** The bytes of a code point. *)
Definition utf8 (cp : N) : string :=
  let byte (n : N) := ascii_of_N n in
  (if cp <? 128 then String (byte cp) ""
   else if cp <? 2048 then
     String (byte (192 + cp / 64)) (String (byte (128 + cp mod 64)) "")
   else if cp <? 65536 then
     String (byte (224 + cp / 4096))
       (String (byte (128 + (cp / 64) mod 64))
          (String (byte (128 + cp mod 64)) ""))
   else
     String (byte (240 + cp / 262144))
       (String (byte (128 + (cp / 4096) mod 64))
          (String (byte (128 + (cp / 64) mod 64))
             (String (byte (128 + cp mod 64)) ""))))%N.

Definition simple_escape (e : ascii) : option ascii :=
  let n := N_of_ascii e in
  (if n =? 34 then Some dquote
   else if n =? 92 then Some backslash
   else if n =? 47 then Some "/"%char
   else if n =? 98 then Some "008"%char
   else if n =? 102 then Some "012"%char
   else if n =? 110 then Some "010"%char
   else if n =? 114 then Some "013"%char
   else if n =? 116 then Some "009"%char
   else None)%N.

Definition prepend (prefix : string) (r : option (string * string))
  : option (string * string) :=
  match r with
  | Some (str, rest) => Some (prefix ++ str, rest)
  | None => None
  end.

(** The characters of a string literal after its opening quote, up to and
    including the closing quote: the decoded string and what follows. *)
Fixpoint read_chars (s : string) : option (string * string) :=
  match s with
  | EmptyString => None
  | String c r =>
      if Ascii.eqb c dquote then Some ("", r)
      else if Ascii.eqb c backslash then
        match r with
        | EmptyString => None
        | String e r1 =>
            if Ascii.eqb e "u" then
              match r1 with
              | String h1 (String h2 (String h3 (String h4 r2))) =>
                  match hex4 h1 h2 h3 h4 with
                  | None => None
                  | Some unit1 =>
                      if is_high_surrogate unit1 then
                        match r2 with
                        | String b (String u (String l1 (String l2
                            (String l3 (String l4 r3))))) =>
                            match hex4 l1 l2 l3 l4 with
                            | Some unit2 =>
                                if Ascii.eqb b backslash && Ascii.eqb u "u"
                                   && is_low_surrogate unit2
                                then prepend
                                       (utf8 (65536 + (unit1 - 55296) * 1024
                                              + (unit2 - 56320))%N)
                                       (read_chars r3)
                                else prepend (utf8 unit1) (read_chars r2)
                            | None => prepend (utf8 unit1) (read_chars r2)
                            end
                        | _ => prepend (utf8 unit1) (read_chars r2)
                        end
                      else prepend (utf8 unit1) (read_chars r2)
                  end
              | _ => None
              end
            else
              match simple_escape e with
              | Some c' => prepend (String c' "") (read_chars r1)
              | None => None
              end
        end
      else if (N_of_ascii c <? 32)%N then None
      else prepend (String c "") (read_chars r)
  end.

Fixpoint read_digits (s : string) : string * string :=
  match s with
  | EmptyString => ("", s)
  | String c rest =>
      if is_digit c
      then let (ds, rest') := read_digits rest in (String c ds, rest')
      else ("", s)
  end.

(** A number literal: [-]? int frac? exp?, returned as written. *)
Definition read_number (s : string) : option (string * string) :=
  let (sign, s1) :=
    match s with
    | String c r => if Ascii.eqb c "-" then ("-", r) else ("", s)
    | EmptyString => ("", s)
    end in
  match s1 with
  | EmptyString => None
  | String c r =>
      if is_digit c then
        let (int, s2) :=
          if Ascii.eqb c "0" then ("0", r)
          else let (ds, r') := read_digits r in (String c ds, r') in
        let frac :=
          match s2 with
          | String p r' =>
              if Ascii.eqb p "." then
                let (ds, r'') := read_digits r' in
                match ds with
                | EmptyString => None
                | _ => Some (String p ds, r'')
                end
              else Some ("", s2)
          | EmptyString => Some ("", s2)
          end in
        match frac with
        | None => None
        | Some (fr, s3) =>
            let exp :=
              match s3 with
              | String e r' =>
                  if Ascii.eqb e "e" || Ascii.eqb e "E" then
                    let (sg, r'') :=
                      match r' with
                      | String g t =>
                          if Ascii.eqb g "+" || Ascii.eqb g "-"
                          then (String g "", t) else ("", r')
                      | EmptyString => ("", r')
                      end in
                    let (ds, t) := read_digits r'' in
                    match ds with
                    | EmptyString => None
                    | _ => Some (String e (sg ++ ds), t)
                    end
                  else Some ("", s3)
              | EmptyString => Some ("", s3)
              end in
            match exp with
            | None => None
            | Some (ex, s4) => Some (sign ++ int ++ fr ++ ex, s4)
            end
        end
      else None
  end.

Fixpoint strip_prefix (p s : string) : option string :=
  match p, s with
  | EmptyString, _ => Some s
  | String a p', String b s' =>
      if Ascii.eqb a b then strip_prefix p' s' else None
  | String _ _, EmptyString => None
  end.

Section Reader.

(** How the runtime renders the Number a literal denotes (rounding to a
    double and printing it back): floating-point work that is left to the
    runtime. *)
Variable Number_repr : string -> string.

(** One JSON value at the head of [s], and what follows it.  [fuel] bounds
    the depth of the calls. *)
Fixpoint read_value (fuel : nat) (s : string) : option (jsval * string) :=
  match fuel with
  | O => None
  | S fuel' =>
      match skip_ws s with
      | EmptyString => None
      | String c r =>
          if Ascii.eqb c "{" then
            match skip_ws r with
            | EmptyString => None
            | String c' r' =>
                if Ascii.eqb c' "}" then Some (JObj [], r')
                else
                  match read_members fuel' r with
                  | Some (members, rest) => Some (JObj members, rest)
                  | None => None
                  end
            end
          else if Ascii.eqb c "[" then
            match skip_ws r with
            | EmptyString => None
            | String c' r' =>
                if Ascii.eqb c' "]" then Some (JArr [], r')
                else
                  match read_elements fuel' r with
                  | Some (elements, rest) => Some (JArr elements, rest)
                  | None => None
                  end
            end
          else if Ascii.eqb c dquote then
            match read_chars r with
            | Some (str, rest) => Some (JStr str, rest)
            | None => None
            end
          else
            match strip_prefix "true" (String c r) with
            | Some rest => Some (JBool true, rest)
            | None =>
            match strip_prefix "false" (String c r) with
            | Some rest => Some (JBool false, rest)
            | None =>
            match strip_prefix "null" (String c r) with
            | Some rest => Some (JNull, rest)
            | None =>
            match read_number (String c r) with
            | Some (literal, rest) => Some (JNum (Number_repr literal), rest)
            | None => None
            end end end end
      end
  end

with read_elements (fuel : nat) (s : string)
  : option (list jsval * string) :=
  match fuel with
  | O => None
  | S fuel' =>
      match read_value fuel' s with
      | None => None
      | Some (v, r) =>
          match skip_ws r with
          | EmptyString => None
          | String c r' =>
              if Ascii.eqb c "," then
                match read_elements fuel' r' with
                | Some (vs, rest) => Some (v :: vs, rest)
                | None => None
                end
              else if Ascii.eqb c "]" then Some ([v], r')
              else None
          end
      end
  end

with read_members (fuel : nat) (s : string)
  : option (list (string * jsval) * string) :=
  match fuel with
  | O => None
  | S fuel' =>
      match skip_ws s with
      | EmptyString => None
      | String c r =>
          if Ascii.eqb c dquote then
            match read_chars r with
            | None => None
            | Some (k, r1) =>
                match skip_ws r1 with
                | EmptyString => None
                | String c1 r2 =>
                    if Ascii.eqb c1 ":" then
                      match read_value fuel' r2 with
                      | None => None
                      | Some (v, r3) =>
                          match skip_ws r3 with
                          | EmptyString => None
                          | String c3 r4 =>
                              if Ascii.eqb c3 "," then
                                match read_members fuel' r4 with
                                | Some (ms, rest) => Some ((k, v) :: ms, rest)
                                | None => None
                                end
                              else if Ascii.eqb c3 "}" then Some ([(k, v)], r4)
                              else None
                          end
                      end
                    else None
                end
            end
          else None
      end
  end.

(** [JSON.parse]: one value, surrounded by optional white space, read with
    fuel for the length of the text. *)
Definition JSON_parse (text : string) : option jsval :=
  match read_value (S (String.length text)) text with
  | Some (v, rest) =>
      match skip_ws rest with
      | EmptyString => Some v
      | String _ _ => None
      end
  | None => None
  end.

End Reader.

(** ** Vocabulary of the statements *)

(** *** Text written by [JSON.stringify] *)

(** The text of an array element, and of the members of an object. *)
Definition element_text (x : jsval) : string :=
  match JSON_stringify x with
  | Some s => s
  | None => "null"
  end.

Definition member_texts (kv : string * jsval) : list string :=
  match kv with
  | (k, x) =>
      match JSON_stringify x with
      | Some s => [QuoteJSONString k ++ ":" ++ s]
      | None => []
      end
  end.

(** Values made of strings, booleans, [null], arrays and objects only: no
    [undefined], and no Number (reading one back is the runtime's
    floating-point work). *)
Fixpoint textual (v : jsval) : bool :=
  match v with
  | JUndefined | JNum _ => false
  | JNull | JBool _ | JStr _ => true
  | JArr elements => forallb textual elements
  | JObj members =>
      forallb (fun kv => match kv with (_, x) => textual x end) members
  end.

Fixpoint size (v : jsval) : nat :=
  match v with
  | JArr elements => S (fold_right (fun x n => S (size x + n)) 0 elements)
  | JObj members =>
      S (fold_right (fun kv n => match kv with (_, x) => S (size x + n) end)
           0 members)
  | _ => 1
  end.

Definition size_elements (elements : list jsval) : nat :=
  fold_right (fun x n => S (size x + n)) 0 elements.

Definition size_members (members : list (string * jsval)) : nat :=
  fold_right (fun kv n => match kv with (_, x) => S (size x + n) end)
    0 members.

Definition textual_members (members : list (string * jsval)) : bool :=
  forallb (fun kv => match kv with (_, x) => textual x end) members.

(** *** Requests as the transport sees them *)

(** The URLs handed to the transport, in order. *)
Fixpoint fetched_urls (t : list event) : list string :=
  match t with
  | [] => []
  | EvGetBaseUrl _ _ :: rest => fetched_urls rest
  | EvFetch url _ _ :: rest => url :: fetched_urls rest
  end.

(** [configured ?? default] in [triggerAlarm]. *)
Definition events_base (config : ClientApiConfig) : string :=
  match eventsBaseUrl config with
  | Some configured => configured
  | None => "https://events.pagerduty.com/v2"
  end.

(** The parts of a URL as the transport takes it apart: the query is the
    text between the first [?] and the next [#], when no [#] comes before
    that [?]; what follows a [#] is the fragment, which is not sent. *)
Definition ends_path (c : ascii) : bool :=
  Ascii.eqb c "?" || Ascii.eqb c "#".

Fixpoint until_hash (s : string) : string :=
  match s with
  | EmptyString => ""
  | String c rest =>
      if Ascii.eqb c "#" then "" else String c (until_hash rest)
  end.

Fixpoint url_query (url : string) : option string :=
  match url with
  | EmptyString => None
  | String c rest =>
      if Ascii.eqb c "#" then None
      else if Ascii.eqb c "?" then Some (until_hash rest)
      else url_query rest
  end.

(** Scheme, authority and path: the text before the first [?] or [#]. *)
Fixpoint url_before_query (url : string) : string :=
  match url with
  | EmptyString => ""
  | String c rest =>
      if ends_path c then "" else String c (url_before_query rest)
  end.

(** The parameters of a query as written: the query is cut at every [&],
    empty pieces are dropped, and each piece is cut at its first [=] into a
    name and a value.  Nothing is percent-decoded. *)
Fixpoint segments (s : string) : list string :=
  match s with
  | EmptyString => [""]
  | String c rest =>
      if Ascii.eqb c "&" then "" :: segments rest
      else match segments rest with
           | segment :: more => String c segment :: more
           | [] => [String c ""]
           end
  end.

Fixpoint name_value (segment : string) : string * string :=
  match segment with
  | EmptyString => ("", "")
  | String c rest =>
      if Ascii.eqb c "=" then ("", rest)
      else let (name, value) := name_value rest in (String c name, value)
  end.

Definition query_parameters (query : string) : list (string * string) :=
  map name_value
    (filter (fun segment => negb (String.eqb segment "")) (segments query)).

(** Characters that a URL carries unchanged wherever they stand, and that
    no URL parser or decoder treats specially: letters, digits, [-], [_]
    and [~].  (A dot is left out: a path segment made of dots is resolved
    away.) *)
Definition is_safe_char (c : ascii) : bool :=
  let n := N_of_ascii c in
  (((48 <=? n) && (n <=? 57)) || ((65 <=? n) && (n <=? 90))
   || ((97 <=? n) && (n <=? 122))
   || (n =? 45) || (n =? 95) || (n =? 126))%N.

Fixpoint safe (s : string) : bool :=
  match s with
  | EmptyString => true
  | String c rest => is_safe_char c && safe rest
  end.

(** A text that holds neither [?] nor [#]. *)
Fixpoint plain (s : string) : bool :=
  match s with
  | EmptyString => true
  | String c rest => negb (ends_path c) && plain rest
  end.

(** The separators of a query string, in order: [&] between parameters and
    [=] between a name and its value. *)
Definition is_separator (c : ascii) : bool :=
  Ascii.eqb c "&" || Ascii.eqb c "=".

Fixpoint separators (s : string) : string :=
  match s with
  | EmptyString => ""
  | String c rest =>
      if is_separator c then String c (separators rest) else separators rest
  end.

Fixpoint has_separator (s : string) : bool :=
  match s with
  | EmptyString => false
  | String c rest => is_separator c || has_separator rest
  end.

(** The log of an accessor that resolved the proxy to [base] and fetched
    [url] with the GET options. *)
Definition get_log (config : ClientApiConfig) (base url : string)
  : list event :=
  [EvGetBaseUrl "proxy" (inr base);
   EvFetch url getByUrl_options
     (fetch (fetchApi config) url getByUrl_options)].

(** *** The pieces of the client *)

(** The pure remainder of [request] once the transport has answered. *)
Definition failure_of (response : Response) : result Response :=
  match Response_json response with
  | inl e => inl e
  | inr payload =>
      match Get payload errors with
      | inl e => inl e
      | inr errs =>
          match map_identity errs with
          | inl e => inl e
          | inr mapped =>
              match join " " mapped with
              | inl e => inl e
              | inr joined =>
                  inl (Error ("Request failed with "
                                ++ status_to_string (status response)
                                ++ ", " ++ joined))
              end
          end
      end
  end.

(** The shape the five typed accessors share: resolve the proxy, GET the
    location, decode, read one field. *)
Definition accessor (config : ClientApiConfig) (locate : string -> string)
    (f : field) : M jsval :=
  base <- await_getBaseUrl config "proxy" ;;
  decoded <- getByUrl config (locate base) ;;
  lift (Get decoded f).

Definition location (op : operation) (base : string) : string :=
  match op with
  | GetServiceByIntegrationKey key =>
      base ++ "/pagerduty/services?" ++ commonGetServiceParams
        ++ "&query=" ++ key
  | GetServiceByServiceId id =>
      base ++ "/pagerduty/services/" ++ id ++ "?" ++ commonGetServiceParams
  | GetIncidentsByServiceId id =>
      base ++ "/pagerduty/incidents?"
        ++ "time_zone=UTC&sort_by=created_at&statuses[]=triggered&statuses[]=acknowledged&service_ids[]="
        ++ id
  | GetChangeEventsByServiceId id =>
      base ++ "/pagerduty/services/" ++ id ++ "/change_events?"
        ++ "limit=5&time_zone=UTC&sort_by=timestamp"
  | GetOnCallByPolicyId id =>
      base ++ "/pagerduty/oncalls?"
        ++ "time_zone=UTC&include[]=users&escalation_policy_ids[]=" ++ id
  | TriggerAlarm _ => base ++ "/enqueue"
  end.

(** The one request an operation hands to the transport. *)
Definition options_of (op : operation) : RequestOptions :=
  match op with
  | TriggerAlarm alarm => triggerAlarm_options alarm
  | _ => getByUrl_options
  end.

(** The three conditions [request] raises on purpose. *)
Definition classified (e : exn) : Prop :=
  e = UnauthorizedError \/ e = NotFoundError \/ exists message, e = Error message.

(** The named top-level property of a decoded body, [undefined] when the
    body has none. *)
Definition field_value (decoded : jsval) (f : field) : jsval :=
  match decoded with
  | JObj members =>
      match own_property members (field_name f) with
      | Some v => v
      | None => JUndefined
      end
  | _ => JUndefined
  end.

(** The event as it reads once posted: a property whose value is
    [undefined] is not written. *)
Definition posted_event (alarm : TriggerAlarmRequest) : jsval :=
  JObj [("event_action", JStr "trigger");
        ("routing_key", JStr (integrationKey alarm));
        ("client", JStr "Backstage");
        ("client_url", JStr (source alarm));
        ("payload",
         JObj [("summary", JStr (description alarm));
               ("source", JStr (source alarm));
               ("severity", JStr "error");
               ("class", JStr "manual trigger");
               ("custom_details",
                JObj match userName alarm with
                     | Some name => [("user", JStr name)]
                     | None => []
                     end)])].

(** ** Stub collaborators for the concrete scenarios *)

(** A literal kept as written: right for literals already in the form
    [Number::toString] prints. *)
Definition as_written (literal : string) : string := literal.

Definition text_response (code : N) (text : string) : Response :=
  {| status := code; json_body := JSON_parse as_written text |}.

Definition stub_config (base : string) (response : Response)
  : ClientApiConfig :=
  {| eventsBaseUrl := None;
     discoveryApi := {| getBaseUrl := fun _ => inr base |};
     fetchApi := {| fetch := fun _ _ => inr response |} |}.

Definition quoted (s : string) : string := String dquote (s ++ String dquote "").

Definition proxy_base : string := "http://localhost:7007/api/proxy".

Definition unauthorized_stub : Response := text_response 401 "{}".
Definition missing_stub : Response := text_response 404 "{}".

Definition failing_stub : Response :=
  text_response 500
    ("{" ++ quoted "errors" ++ ": [" ++ quoted "Invalid Input Provided"
         ++ ", " ++ quoted "Bad token" ++ "]}").

Definition gateway_stub : Response :=
  text_response 502 "<html>Bad Gateway</html>".

Definition shapeless_stub : Response :=
  text_response 500 ("{" ++ quoted "message" ++ ": " ++ quoted "boom" ++ "}").

Definition null_stub : Response := text_response 200 "null".

Definition service_stub : Response :=
  text_response 200
    ("{" ++ quoted "service" ++ ": {" ++ quoted "id" ++ ":" ++ quoted "def456"
         ++ "," ++ quoted "name" ++ ":" ++ quoted "X" ++ "}}").

Definition no_incidents_stub : Response :=
  text_response 200 ("{" ++ quoted "incidents" ++ ": []}").

Definition change_events_stub : Response :=
  text_response 200
    ("{" ++ quoted "change_events" ++ ": [{" ++ quoted "id" ++ ":"
         ++ quoted "CE1" ++ "}]}").

Definition sample_alarm : TriggerAlarmRequest :=
  {| integrationKey := "abc123";
     source := "https://backstage.example.com/catalog/pagerduty-test";
     description := "Checkout is down";
     userName := None |}.

(** ** Vocabulary of the further properties *)

(** The field each typed accessor reads off the decoded body;
    [triggerAlarm] reads none. *)
Definition field_of (op : operation) : option field :=
  match op with
  | GetServiceByIntegrationKey _ => Some services
  | GetServiceByServiceId _ => Some service
  | GetIncidentsByServiceId _ => Some incidents
  | GetChangeEventsByServiceId _ => Some change_events
  | GetOnCallByPolicyId _ => Some oncalls
  | TriggerAlarm _ => None
  end.

(** The logical names handed to the discovery function, in order. *)
Fixpoint discovery_calls (t : list event) : list string :=
  match t with
  | [] => []
  | EvGetBaseUrl name _ :: rest => name :: discovery_calls rest
  | EvFetch _ _ _ :: rest => discovery_calls rest
  end.

(** An entry of an [errors] array that is a string or [null]. *)
Definition entry (e : option string) : jsval :=
  match e with
  | Some s => JStr s
  | None => JNull
  end.

Definition entry_text (e : option string) : string :=
  match e with
  | Some s => s
  | None => ""
  end.

(** Collaborators that reject. *)
Definition unreachable_discovery (response : Response) : ClientApiConfig :=
  {| eventsBaseUrl := None;
     discoveryApi := {| getBaseUrl := fun _ => inl (Rejection "no proxy") |};
     fetchApi := {| fetch := fun _ _ => inr response |} |}.

Definition unreachable_transport (base : string) : ClientApiConfig :=
  {| eventsBaseUrl := None;
     discoveryApi := {| getBaseUrl := fun _ => inr base |};
     fetchApi := {| fetch := fun _ _ => inl (Rejection "Failed to fetch") |} |}.

Definition empty_stub : Response := text_response 204 "".

Definition nullable_errors_stub : Response :=
  text_response 400
    ("{" ++ quoted "errors" ++ ": [" ++ quoted "Invalid" ++ ", null, "
         ++ quoted "Input" ++ "]}").

Definition named_alarm : TriggerAlarmRequest :=
  {| integrationKey := "abc123";
     source := "https://backstage.example.com/catalog/pagerduty-test";
     description := "Checkout is down";
     userName := Some "person1" |}.

(** ** The runtime fragments on small inputs *)

Example ok_is_2xx :
  ok (text_response 200 "{}") = true /\ ok (text_response 299 "{}") = true
  /\ ok (text_response 199 "{}") = false /\ ok (text_response 300 "{}") = false
  /\ ok (text_response 401 "{}") = false.
Proof. repeat split. Qed.

Example status_to_string_503 : status_to_string 503 = "503".
Proof. reflexivity. Qed.

Example join_mixed :
  join " " [JStr "a"; JNull; JNum "1"; JArr [JStr "x"; JStr "y"]; JObj []]
  = inr "a  1 x,y [object Object]".
Proof. reflexivity. Qed.

Example join_object_with_own_toString :
  join " " [JStr "a"; JObj [("toString", JNum "1")]] = inl TypeError.
Proof. reflexivity. Qed.

Example own_property_last_binding :
  own_property [("errors", JNum "1"); ("errors", JArr [])] "errors"
  = Some (JArr []).
Proof. reflexivity. Qed.

Example quote_control_characters :
  QuoteJSONString (String "010" (String "031" (String dquote "x")))
  = quoted (String backslash "n" ++ String backslash "u001f"
              ++ String backslash (String dquote "x")).
Proof. reflexivity. Qed.

Example stringify_drops_undefined :
  JSON_stringify (JObj [("a", JUndefined); ("b", JArr [JUndefined; JBool true])])
  = Some ("{" ++ quoted "b" ++ ":[null,true]}").
Proof. reflexivity. Qed.

Example parse_nested :
  JSON_parse as_written
    (" {" ++ quoted "a" ++ " : [1, -2.5e+3, true, null, {}, "
          ++ quoted (String backslash "u00e9") ++ "] } ")
  = Some (JObj [("a", JArr [JNum "1"; JNum "-2.5e+3"; JBool true; JNull;
                            JObj []; JStr (String "195" (String "169" ""))])]).
Proof. reflexivity. Qed.

Example parse_rejects :
  JSON_parse as_written "[1,]" = None
  /\ JSON_parse as_written "01" = None
  /\ JSON_parse as_written "{} x" = None
  /\ JSON_parse as_written "<html>" = None.
Proof. repeat split. Qed.

Example triggerAlarm_body_without_user :
  body (triggerAlarm_options sample_alarm)
  = Some ("{" ++ quoted "event_action" ++ ":" ++ quoted "trigger" ++ ","
              ++ quoted "routing_key" ++ ":" ++ quoted "abc123" ++ ","
              ++ quoted "client" ++ ":" ++ quoted "Backstage" ++ ","
              ++ quoted "client_url" ++ ":"
              ++ quoted "https://backstage.example.com/catalog/pagerduty-test"
              ++ "," ++ quoted "payload" ++ ":{"
              ++ quoted "summary" ++ ":" ++ quoted "Checkout is down" ++ ","
              ++ quoted "source" ++ ":"
              ++ quoted "https://backstage.example.com/catalog/pagerduty-test"
              ++ "," ++ quoted "severity" ++ ":" ++ quoted "error" ++ ","
              ++ quoted "class" ++ ":" ++ quoted "manual trigger" ++ ","
              ++ quoted "custom_details" ++ ":{}}}").
Proof. reflexivity. Qed.

(** ** Facts about the runtime fragments *)

Lemma append_assoc (a b c : string) : (a ++ b) ++ c = a ++ (b ++ c).
Proof.
  induction a as [|x a IH]; simpl; [reflexivity | now rewrite IH].
Qed.

Lemma append_empty_r (a : string) : a ++ "" = a.
Proof.
  induction a as [|x a IH]; simpl; [reflexivity | now rewrite IH].
Qed.

(** Reading back one quoted character yields that character. *)
Lemma read_chars_quote_char (c : ascii) (tail : string) :
  read_chars (quote_char c ++ tail) = prepend (String c "") (read_chars tail).
Proof.
  destruct c as [b0 b1 b2 b3 b4 b5 b6 b7].
  destruct b0, b1, b2, b3, b4, b5, b6, b7; reflexivity.
Qed.

Lemma read_chars_quote_chars (s rest : string) :
  read_chars (quote_chars s ++ String dquote rest) = Some (s, rest).
Proof.
  induction s as [|c s IH]; simpl.
  - reflexivity.
  - rewrite append_assoc, read_chars_quote_char, IH. reflexivity.
Qed.

(** *** Reading back what [JSON.stringify] wrote *)

Lemma JSON_stringify_array (elements : list jsval) :
  JSON_stringify (JArr elements)
  = Some ("[" ++ String.concat "," (map element_text elements) ++ "]").
Proof. reflexivity. Qed.

Lemma JSON_stringify_object (members : list (string * jsval)) :
  JSON_stringify (JObj members)
  = Some ("{" ++ String.concat "," (flat_map member_texts members) ++ "}").
Proof. reflexivity. Qed.

Lemma textual_stringify (v : jsval) :
  textual v = true -> JSON_stringify v = Some (element_text v).
Proof.
  unfold element_text.
  destruct v as [| |b|r|s|l|m]; simpl; try discriminate; try reflexivity.
  destruct b; reflexivity.
Qed.

(** The text of a textual value starts with a character that is neither
    white space nor a closing bracket. *)
Lemma element_text_head (v : jsval) :
  textual v = true ->
  exists c t, element_text v = String c t /\ is_ws c = false
              /\ Ascii.eqb c "]" = false.
Proof.
  unfold element_text.
  destruct v as [| |b|r|s|l|m]; simpl; try discriminate; intros _.
  - exists "n"%char, "ull". repeat split.
  - destruct b; [exists "t"%char, "rue" | exists "f"%char, "alse"];
      repeat split.
  - eexists _, _. unfold QuoteJSONString. repeat split.
  - eexists _, _. repeat split.
  - eexists _, _. repeat split.
Qed.

Lemma textual_member_texts (k : string) (x : jsval) :
  textual x = true ->
  member_texts (k, x) = [QuoteJSONString k ++ ":" ++ element_text x].
Proof.
  intros Hx. unfold member_texts. rewrite (textual_stringify x Hx).
  reflexivity.
Qed.

Lemma skip_ws_head (c : ascii) (t : string) :
  is_ws c = false -> skip_ws (String c t) = String c t.
Proof. intros H. simpl. now rewrite H. Qed.

Section ReadBack.

Variable Number_repr : string -> string.

Lemma read_value_quoted (n : nat) (s rest : string) :
  read_value Number_repr (S n) (QuoteJSONString s ++ rest) = Some (JStr s, rest).
Proof.
  unfold QuoteJSONString. simpl. rewrite append_assoc. simpl.
  now rewrite read_chars_quote_chars.
Qed.

Lemma read_value_array (n : nat) (c : ascii) (t : string) :
  is_ws c = false -> Ascii.eqb c "]" = false ->
  read_value Number_repr (S n) (String "[" (String c t))
  = match read_elements Number_repr n (String c t) with
    | Some (elements, rest) => Some (JArr elements, rest)
    | None => None
    end.
Proof.
  intros Hws Hc. simpl. rewrite Hws, Hc. reflexivity.
Qed.

Lemma read_value_object (n : nat) (t : string) :
  read_value Number_repr (S n) (String "{" (String dquote t))
  = match read_members Number_repr n (String dquote t) with
    | Some (members, rest) => Some (JObj members, rest)
    | None => None
    end.
Proof. reflexivity. Qed.

Lemma read_elements_last (n : nat) (s rest : string) (v : jsval) :
  read_value Number_repr n s = Some (v, String "]" rest) ->
  read_elements Number_repr (S n) s = Some ([v], rest).
Proof. intros H. simpl. now rewrite H. Qed.

Lemma read_elements_more (n : nat) (s s' rest : string) (v : jsval)
    (vs : list jsval) :
  read_value Number_repr n s = Some (v, String "," s') ->
  read_elements Number_repr n s' = Some (vs, rest) ->
  read_elements Number_repr (S n) s = Some (v :: vs, rest).
Proof.
  intros H H'. simpl. rewrite H. simpl.
  now rewrite H'.
Qed.

Lemma read_members_last (n : nat) (k s rest : string) (v : jsval) :
  read_value Number_repr n s = Some (v, String "}" rest) ->
  read_members Number_repr (S n) (QuoteJSONString k ++ String ":" s)
  = Some ([(k, v)], rest).
Proof.
  intros H. unfold QuoteJSONString. simpl. rewrite append_assoc. simpl.
  rewrite read_chars_quote_chars. simpl. now rewrite H.
Qed.

Lemma read_members_more (n : nat) (k s s' rest : string) (v : jsval)
    (ms : list (string * jsval)) :
  read_value Number_repr n s = Some (v, String "," s') ->
  read_members Number_repr n s' = Some (ms, rest) ->
  read_members Number_repr (S n) (QuoteJSONString k ++ String ":" s)
  = Some ((k, v) :: ms, rest).
Proof.
  intros H H'. unfold QuoteJSONString. simpl. rewrite append_assoc. simpl.
  rewrite read_chars_quote_chars. simpl.
  rewrite H. simpl. now rewrite H'.
Qed.

Lemma concat_head (a : string) (l : list string) :
  exists tail, String.concat "," (a :: l) = a ++ tail.
Proof.
  destruct l as [|b l].
  - exists "". simpl. now rewrite append_empty_r.
  - eexists. reflexivity.
Qed.

Lemma concat_cons2 (sep a b : string) (l : list string) :
  String.concat sep (a :: b :: l) = a ++ sep ++ String.concat sep (b :: l).
Proof. reflexivity. Qed.

Lemma size_positive (v : jsval) : 1 <= size v.
Proof. destruct v; simpl; lia. Qed.

(** With fuel for its size, the reader recovers a textual value from its
    text, whatever follows it. *)
Lemma read_back (n : nat) :
  (forall v rest,
      size v <= n -> textual v = true ->
      read_value Number_repr n (element_text v ++ rest) = Some (v, rest))
  /\ (forall x xs rest,
        size_elements (x :: xs) <= n -> forallb textual (x :: xs) = true ->
        read_elements Number_repr n
          (String.concat "," (map element_text (x :: xs)) ++ String "]" rest)
        = Some (x :: xs, rest))
  /\ (forall k x ms rest,
        size_members ((k, x) :: ms) <= n ->
        textual_members ((k, x) :: ms) = true ->
        read_members Number_repr n
          (String.concat "," (flat_map member_texts ((k, x) :: ms))
             ++ String "}" rest)
        = Some ((k, x) :: ms, rest)).
Proof.
  induction n as [|n [IHv [IHe IHm]]].
  - split; [|split].
    + intros v rest Hsz _. pose proof (size_positive v). lia.
    + intros x xs rest Hsz _. simpl in Hsz. lia.
    + intros k x ms rest Hsz _. simpl in Hsz. lia.
  - split; [|split].
    + intros v rest Hsz Ht.
      destruct v as [| |b|r|s|l|m]; simpl in Ht; try discriminate.
      * reflexivity.
      * destruct b; reflexivity.
      * apply read_value_quoted.
      * destruct l as [|x xs]; [reflexivity|].
        assert (Hn : size_elements (x :: xs) <= n)
          by (simpl in Hsz; unfold size_elements; simpl; lia).
        pose proof (IHe x xs rest Hn Ht) as Hread.
        destruct (element_text_head x) as (c & t & Hx & Hws & Hc).
        { simpl in Ht. now apply andb_true_iff in Ht. }
        destruct (concat_head (element_text x) (map element_text xs))
          as [tail Htail].
        unfold element_text at 1. rewrite JSON_stringify_array.
        change (map element_text (x :: xs))
          with (element_text x :: map element_text xs) in *.
        rewrite Htail, Hx in *. cbn [append] in Hread |- *.
        rewrite !append_assoc in *. cbn [append] in Hread |- *.
       
        rewrite read_value_array by assumption.
        now rewrite Hread.
      * destruct m as [|[k x] ms]; [reflexivity|].
        assert (Hn : size_members ((k, x) :: ms) <= n)
          by (simpl in Hsz; unfold size_members; simpl; lia).
        pose proof (IHm k x ms rest Hn Ht) as Hread.
        assert (Hx : textual x = true)
          by (simpl in Ht; now apply andb_true_iff in Ht).
        unfold element_text at 1. rewrite JSON_stringify_object.
        change (flat_map member_texts ((k, x) :: ms))
          with (member_texts (k, x) ++ flat_map member_texts ms)%list in *.
        rewrite (textual_member_texts k x Hx) in *.
        cbn [app] in *.
        destruct (concat_head (QuoteJSONString k ++ ":" ++ element_text x)
                    (flat_map member_texts ms)) as [tail Htail].
        rewrite Htail in *. unfold QuoteJSONString in *.
        cbn [append] in Hread |- *. rewrite !append_assoc in *.
        cbn [append] in Hread |- *.
        rewrite read_value_object.
        now rewrite Hread.
    + intros x xs rest Hsz Ht.
      simpl in Ht. apply andb_true_iff in Ht. destruct Ht as [Hx Hxs].
      unfold size_elements in Hsz. simpl in Hsz.
      destruct xs as [|y ys].
      * cbn [String.concat map]. apply read_elements_last. apply IHv; [lia | assumption].
      * change (String.concat "," (map element_text (x :: y :: ys)))
          with (element_text x
                  ++ "," ++ String.concat "," (map element_text (y :: ys))).
        rewrite !append_assoc. cbn [append].
        eapply read_elements_more.
        -- apply IHv; [lia | assumption].
        -- apply IHe; [unfold size_elements; simpl in Hsz |- *; lia | assumption].
    + intros k x ms rest Hsz Ht.
      simpl in Ht. apply andb_true_iff in Ht. destruct Ht as [Hx Hms].
      unfold size_members in Hsz. simpl in Hsz.
      change (flat_map member_texts ((k, x) :: ms))
        with (member_texts (k, x) ++ flat_map member_texts ms)%list.
      rewrite (textual_member_texts k x Hx).
      destruct ms as [|[k' x'] ms'].
      * cbn [String.concat app flat_map]. rewrite !append_assoc. cbn [append].
        apply read_members_last. apply IHv; [lia | assumption].
      * assert (Hx' : textual x' = true)
          by (simpl in Hms; now apply andb_true_iff in Hms).
        pose proof (IHm k' x' ms' rest) as Hread.
        change (flat_map member_texts ((k', x') :: ms'))
          with (member_texts (k', x') ++ flat_map member_texts ms')%list
          in *.
        rewrite (textual_member_texts k' x' Hx') in *.
        cbn [app] in Hread |- *. rewrite concat_cons2.
        rewrite !append_assoc. cbn [append].
        eapply read_members_more.
        -- apply IHv; [lia | assumption].
        -- apply Hread; [unfold size_members; simpl in Hsz |- *; lia | assumption].
Qed.

End ReadBack.

(** *** The text is at least as long as the value is large *)

Lemma length_append (a b : string) :
  String.length (a ++ b) = String.length a + String.length b.
Proof.
  induction a as [|x a IH]; simpl; [reflexivity | now rewrite IH].
Qed.

Lemma size_elements_text (elements : list jsval) :
  (forall x, In x elements -> size x <= String.length (element_text x)) ->
  size_elements elements
  <= String.length (String.concat "," (map element_text elements)) + 1.
Proof.
  unfold size_elements.
  induction elements as [|x xs IH]; intros H; [simpl; lia|].
  pose proof (H x (or_introl eq_refl)) as Hx.
  assert (Hxs : forall y, In y xs -> size y <= String.length (element_text y))
    by (intros y Hy; apply H; now right).
  specialize (IH Hxs).
  destruct xs as [|y ys].
  - simpl. lia.
  - change (map element_text (x :: y :: ys))
      with (element_text x :: element_text y :: map element_text ys).
    rewrite concat_cons2, !length_append.
    change (map element_text (y :: ys))
      with (element_text y :: map element_text ys) in IH.
    cbn [fold_right String.length] in IH |- *. lia.
Qed.

Lemma size_members_text (members : list (string * jsval)) :
  (forall k x, In (k, x) members ->
               textual x = true /\ size x <= String.length (element_text x)) ->
  size_members members
  <= String.length (String.concat "," (flat_map member_texts members)) + 1.
Proof.
  unfold size_members.
  induction members as [|[k x] ms IH]; intros H; [simpl; lia|].
  destruct (H k x (or_introl eq_refl)) as [Ht Hx].
  assert (Hms : forall k' y, In (k', y) ms ->
                  textual y = true /\ size y <= String.length (element_text y))
    by (intros k' y Hy; apply (H k' y); now right).
  specialize (IH Hms).
  change (flat_map member_texts ((k, x) :: ms))
    with (member_texts (k, x) ++ flat_map member_texts ms)%list.
  rewrite (textual_member_texts k x Ht). cbn [app].
  destruct ms as [|[k' y] ms'].
  - cbn [flat_map String.concat fold_right]. rewrite !length_append. lia.
  - destruct (Hms k' y (or_introl eq_refl)) as [Ht' _].
    change (flat_map member_texts ((k', y) :: ms'))
      with (member_texts (k', y) ++ flat_map member_texts ms')%list in *.
    rewrite (textual_member_texts k' y Ht') in *. cbn [app] in *.
    rewrite concat_cons2, !length_append.
    cbn [fold_right String.length] in IH |- *. lia.
Qed.

Lemma size_in_elements (x : jsval) (elements : list jsval) :
  In x elements -> S (size x) <= size_elements elements.
Proof.
  unfold size_elements.
  induction elements as [|y ys IH]; intros Hin; [destruct Hin|].
  destruct Hin as [->|Hin]; simpl; [lia | specialize (IH Hin); lia].
Qed.

Lemma size_in_members (k : string) (x : jsval)
    (members : list (string * jsval)) :
  In (k, x) members -> S (size x) <= size_members members.
Proof.
  unfold size_members.
  induction members as [|[k' y] ms IH]; intros Hin; [destruct Hin|].
  destruct Hin as [E|Hin]; simpl.
  - injection E as -> ->. lia.
  - specialize (IH Hin). lia.
Qed.

Lemma size_le_text (n : nat) (v : jsval) :
  size v <= n -> textual v = true -> size v <= String.length (element_text v).
Proof.
  revert v. induction n as [|n IH]; intros v Hsz Ht.
  - pose proof (size_positive v). lia.
  - destruct v as [| |b|r|s|l|m]; simpl in Ht; try discriminate.
    + simpl. lia.
    + destruct b; simpl; lia.
    + simpl. lia.
    + unfold element_text. rewrite JSON_stringify_array.
      cbn [append String.length]. rewrite length_append.
      assert (H : size_elements l
                  <= String.length
                       (String.concat "," (map element_text l)) + 1).
      { apply size_elements_text. intros x Hx.
        pose proof (size_in_elements x l Hx) as Hlt.
        apply IH.
        - simpl in Hsz. unfold size_elements in Hlt. lia.
        - rewrite forallb_forall in Ht. now apply Ht. }
      simpl in Hsz |- *. unfold size_elements in H. lia.
    + unfold element_text. rewrite JSON_stringify_object.
      cbn [append String.length]. rewrite length_append.
      assert (H : size_members m
                  <= String.length
                       (String.concat "," (flat_map member_texts m)) + 1).
      { apply size_members_text. intros k x Hx.
        pose proof (size_in_members k x m Hx) as Hlt.
        rewrite forallb_forall in Ht. specialize (Ht (k, x) Hx).
        split; [assumption|].
        apply IH; [|assumption].
        simpl in Hsz. unfold size_members in Hlt. lia. }
      simpl in Hsz |- *. unfold size_members in H. lia.
Qed.

(** [JSON.parse] recovers a textual value from what [JSON.stringify] wrote
    for it. *)
Lemma JSON_parse_stringify (Number_repr : string -> string) (v : jsval)
    (text : string) :
  textual v = true -> JSON_stringify v = Some text ->
  JSON_parse Number_repr text = Some v.
Proof.
  intros Ht Hs.
  rewrite (textual_stringify v Ht) in Hs. injection Hs as <-.
  unfold JSON_parse.
  pose proof (size_le_text (size v) v (le_n _) Ht) as Hsz.
  destruct (read_back Number_repr (S (String.length (element_text v))))
    as [Hv _].
  specialize (Hv v "" (le_S _ _ Hsz) Ht).
  rewrite append_empty_r in Hv. rewrite Hv. reflexivity.
Qed.

(** ** The monad and [request] *)

Lemma fromConfig_events_base (configApi : ConfigApi)
    (discovery : DiscoveryApi) (transport : FetchApi) :
  events_base (fromConfig configApi discovery transport)
  = match getOptionalString configApi "pagerDuty.eventsBaseUrl" with
    | Some configured => configured
    | None => "https://events.pagerduty.com/v2"
    end.
Proof. reflexivity. Qed.

Lemma trace_bind {A B} (m : M A) (k : A -> M B) :
  trace (bind m k)
  = (trace m ++ match outcome m with
                | inr a => trace (k a)
                | inl _ => []
                end)%list.
Proof.
  destruct m as [t [e|a]]; simpl.
  - now rewrite app_nil_r.
  - destruct (k a). reflexivity.
Qed.

Lemma outcome_bind {A B} (m : M A) (k : A -> M B) :
  outcome (bind m k)
  = match outcome m with
    | inr a => outcome (k a)
    | inl e => inl e
    end.
Proof.
  destruct m as [t [e|a]]; simpl; [reflexivity|].
  destruct (k a). reflexivity.
Qed.

Lemma trace_lift {A} (r : result A) : trace (lift r) = [].
Proof. reflexivity. Qed.

Lemma outcome_lift {A} (r : result A) : outcome (lift r) = r.
Proof. reflexivity. Qed.

Lemma trace_await_fetch (config : ClientApiConfig) (url : string)
    (options : RequestOptions) :
  trace (await_fetch config url options)
  = [EvFetch url options (fetch (fetchApi config) url options)].
Proof. reflexivity. Qed.

Lemma outcome_await_fetch (config : ClientApiConfig) (url : string)
    (options : RequestOptions) :
  outcome (await_fetch config url options)
  = fetch (fetchApi config) url options.
Proof. reflexivity. Qed.

Lemma trace_await_getBaseUrl (config : ClientApiConfig) (name : string) :
  trace (await_getBaseUrl config name)
  = [EvGetBaseUrl name (getBaseUrl (discoveryApi config) name)].
Proof. reflexivity. Qed.

Lemma outcome_await_getBaseUrl (config : ClientApiConfig) (name : string) :
  outcome (await_getBaseUrl config name)
  = getBaseUrl (discoveryApi config) name.
Proof. reflexivity. Qed.

Create Rewrite HintDb awaits.
#[local] Hint Rewrite @trace_bind @outcome_bind @trace_lift @outcome_lift
  trace_await_fetch outcome_await_fetch
  trace_await_getBaseUrl outcome_await_getBaseUrl : awaits.

(** [request] awaits the transport exactly once. *)
Lemma request_trace (config : ClientApiConfig) (url : string)
    (options : RequestOptions) :
  trace (request config url options)
  = [EvFetch url options (fetch (fetchApi config) url options)].
Proof.
  unfold request. autorewrite with awaits.
  destruct (fetch (fetchApi config) url options) as [e|response];
    [reflexivity|].
  destruct (status response =? 401)%N; [reflexivity|].
  destruct (status response =? 404)%N; [reflexivity|].
  destruct (negb (ok response)); [|reflexivity].
  autorewrite with awaits. destruct (Response_json response) as [e|payload]; [reflexivity|].
  autorewrite with awaits. destruct (Get payload errors) as [e|errs]; [reflexivity|].
  autorewrite with awaits. destruct (map_identity errs) as [e|mapped]; [reflexivity|].
  autorewrite with awaits. destruct (join " " mapped); reflexivity.
Qed.

Lemma request_outcome (config : ClientApiConfig) (url : string)
    (options : RequestOptions) :
  outcome (request config url options)
  = match fetch (fetchApi config) url options with
    | inl e => inl e
    | inr response =>
        if (status response =? 401)%N then inl UnauthorizedError
        else if (status response =? 404)%N then inl NotFoundError
        else if negb (ok response) then failure_of response
        else inr response
    end.
Proof.
  unfold request, failure_of. autorewrite with awaits.
  destruct (fetch (fetchApi config) url options) as [e|response];
    [reflexivity|].
  destruct (status response =? 401)%N; [reflexivity|].
  destruct (status response =? 404)%N; [reflexivity|].
  destruct (negb (ok response)); [|reflexivity].
  autorewrite with awaits. destruct (Response_json response) as [e|payload]; [reflexivity|].
  autorewrite with awaits. destruct (Get payload errors) as [e|errs]; [reflexivity|].
  autorewrite with awaits. destruct (map_identity errs) as [e|mapped]; [reflexivity|].
  autorewrite with awaits. destruct (join " " mapped); reflexivity.
Qed.

(** ** The typed accessors *)

Lemma getServiceByIntegrationKey_accessor config key :
  getServiceByIntegrationKey config key
  = accessor config (location (GetServiceByIntegrationKey key)) services.
Proof. reflexivity. Qed.

Lemma getServiceByServiceId_accessor config id :
  getServiceByServiceId config id
  = accessor config (location (GetServiceByServiceId id)) service.
Proof. reflexivity. Qed.

Lemma getIncidentsByServiceId_accessor config id :
  getIncidentsByServiceId config id
  = accessor config (location (GetIncidentsByServiceId id)) incidents.
Proof. reflexivity. Qed.

Lemma getChangeEventsByServiceId_accessor config id :
  getChangeEventsByServiceId config id
  = accessor config (location (GetChangeEventsByServiceId id)) change_events.
Proof. reflexivity. Qed.

Lemma getOnCallByPolicyId_accessor config id :
  getOnCallByPolicyId config id
  = accessor config (location (GetOnCallByPolicyId id)) oncalls.
Proof. reflexivity. Qed.

Lemma accessor_trace config locate f :
  trace (accessor config locate f)
  = match getBaseUrl (discoveryApi config) "proxy" with
    | inl e => [EvGetBaseUrl "proxy" (inl e)]
    | inr base =>
        [EvGetBaseUrl "proxy" (inr base);
         EvFetch (locate base) getByUrl_options
           (fetch (fetchApi config) (locate base) getByUrl_options)]
    end.
Proof.
  unfold accessor. autorewrite with awaits.
  destruct (getBaseUrl (discoveryApi config) "proxy") as [e|base];
    [reflexivity|].
  autorewrite with awaits. unfold getByUrl. autorewrite with awaits. rewrite request_trace.
  destruct (outcome (request config (locate base) getByUrl_options))
    as [e|response]; [reflexivity|].
  autorewrite with awaits. destruct (Response_json response); reflexivity.
Qed.

Lemma accessor_outcome config locate f :
  outcome (accessor config locate f)
  = match getBaseUrl (discoveryApi config) "proxy" with
    | inl e => inl e
    | inr base =>
        match outcome (request config (locate base) getByUrl_options) with
        | inl e => inl e
        | inr response =>
            match Response_json response with
            | inl e => inl e
            | inr decoded => Get decoded f
            end
        end
    end.
Proof.
  unfold accessor. autorewrite with awaits.
  destruct (getBaseUrl (discoveryApi config) "proxy") as [e|base];
    [reflexivity|].
  autorewrite with awaits. unfold getByUrl. autorewrite with awaits.
  destruct (outcome (request config (locate base) getByUrl_options))
    as [e|response]; [reflexivity|].
  autorewrite with awaits. destruct (Response_json response); reflexivity.
Qed.

Lemma triggerAlarm_unfold config alarm :
  triggerAlarm config alarm
  = request config (events_base config ++ "/enqueue")
      (triggerAlarm_options alarm).
Proof. reflexivity. Qed.

Lemma call_trace config op :
  trace (call config op)
  = match op with
    | TriggerAlarm alarm =>
        [EvFetch (location op (events_base config)) (options_of op)
           (fetch (fetchApi config) (location op (events_base config))
              (options_of op))]
    | _ =>
        match getBaseUrl (discoveryApi config) "proxy" with
        | inl e => [EvGetBaseUrl "proxy" (inl e)]
        | inr base =>
            [EvGetBaseUrl "proxy" (inr base);
             EvFetch (location op base) (options_of op)
               (fetch (fetchApi config) (location op base) (options_of op))]
        end
    end.
Proof.
  destruct op; unfold call; autorewrite with awaits;
    [ rewrite getServiceByIntegrationKey_accessor
    | rewrite getServiceByServiceId_accessor
    | rewrite getIncidentsByServiceId_accessor
    | rewrite getChangeEventsByServiceId_accessor
    | rewrite getOnCallByPolicyId_accessor
    | rewrite triggerAlarm_unfold, request_trace ];
    try (rewrite accessor_trace, accessor_outcome;
         destruct (getBaseUrl (discoveryApi config) "proxy") as [e|base];
         [reflexivity|];
         match goal with
         | |- context [outcome (request ?c ?u ?o)] =>
             destruct (outcome (request c u o)) as [e|response];
             [reflexivity|]
         end;
         destruct (Response_json response) as [e|decoded]; [reflexivity|];
         destruct (Get decoded _); reflexivity).
  match goal with
  | |- context [outcome (request ?c ?u ?o)] =>
      destruct (outcome (request c u o)); reflexivity
  end.
Qed.

(** A failure of [request] is the failure of the whole call. *)
Lemma call_fails_with_request config op url options response e :
  In (EvFetch url options (inr response)) (trace (call config op)) ->
  outcome (request config url options) = inl e ->
  outcome (call config op) = inl e.
Proof.
  rewrite call_trace. intros Hin Hreq.
  assert (Hsame : forall u o,
             EvFetch u o (fetch (fetchApi config) u o)
             = EvFetch url options (inr response) ->
             outcome (request config u o) = inl e).
  { intros u o E. injection E as -> -> _. exact Hreq. }
  destruct op; unfold call; autorewrite with awaits; cbn [options_of] in Hin;
    [ rewrite getServiceByIntegrationKey_accessor
    | rewrite getServiceByServiceId_accessor
    | rewrite getIncidentsByServiceId_accessor
    | rewrite getChangeEventsByServiceId_accessor
    | rewrite getOnCallByPolicyId_accessor
    | rewrite triggerAlarm_unfold ];
    try (rewrite accessor_outcome;
         destruct (getBaseUrl (discoveryApi config) "proxy") as [e'|base];
         [ now destruct Hin as [Hin|[]]
         | destruct Hin as [Hin|[Hin|[]]]; [discriminate|];
           now rewrite (Hsame _ _ Hin) ]).
  cbn [location] in Hin. destruct Hin as [Hin|[]].
  now rewrite (Hsame _ _ Hin).
Qed.

(** What the transport settled to is what the log shows. *)
Lemma call_fetch_settled config op url options settled :
  In (EvFetch url options settled) (trace (call config op)) ->
  fetch (fetchApi config) url options = settled.
Proof.
  rewrite call_trace. intros Hin.
  destruct op;
    try (destruct (getBaseUrl (discoveryApi config) "proxy") as [e'|base];
         [ now destruct Hin as [Hin|[]]
         | destruct Hin as [Hin|[Hin|[]]]; [discriminate|];
           now injection Hin as <- <- <- ]).
  destruct Hin as [Hin|[]]. now injection Hin as <- <- <-.
Qed.

(** ** Error classification *)

Lemma join_strings (sep : string) (strings : list string) :
  join sep (map JStr strings) = inr (String.concat sep strings).
Proof.
  unfold join.
  induction strings as [|s rest IH]; [reflexivity|].
  destruct rest as [|s' rest']; [reflexivity|].
  change (map JStr (s :: s' :: rest')) with (JStr s :: map JStr (s' :: rest')).
  change (map JStr (s' :: rest')) with (JStr s' :: map JStr rest') in *.
  cbn [join_with ToString] in IH |- *. now rewrite IH.
Qed.

(** C1: for every client operation, when the transport answers with status
    401 the call is rejected with [UnauthorizedError], whatever the body;
    that error is neither [NotFoundError] nor a generic [Error], and carries
    no message. *)
Theorem unauthorized_on_401 (config : ClientApiConfig) (op : operation)
    (url : string) (options : RequestOptions) (response : Response) :
  In (EvFetch url options (inr response)) (trace (call config op)) ->
  status response = 401%N ->
  outcome (call config op) = inl UnauthorizedError
  /\ UnauthorizedError <> NotFoundError
  /\ (forall message, UnauthorizedError <> Error message).
Proof.
  intros Hin Hstatus.
  split; [|split; [discriminate | intros message; discriminate]].
  apply (call_fails_with_request config op url options response _ Hin).
  rewrite request_outcome.
  rewrite (call_fetch_settled _ _ _ _ _ Hin), Hstatus. reflexivity.
Qed.

(** C2: for every client operation, when the transport answers with status
    404 the call is rejected with [NotFoundError], whatever the body; that
    error is neither [UnauthorizedError] nor a generic [Error], and carries
    no message. *)
Theorem not_found_on_404 (config : ClientApiConfig) (op : operation)
    (url : string) (options : RequestOptions) (response : Response) :
  In (EvFetch url options (inr response)) (trace (call config op)) ->
  status response = 404%N ->
  outcome (call config op) = inl NotFoundError
  /\ NotFoundError <> UnauthorizedError
  /\ (forall message, NotFoundError <> Error message).
Proof.
  intros Hin Hstatus.
  split; [|split; [discriminate | intros message; discriminate]].
  apply (call_fails_with_request config op url options response _ Hin).
  rewrite request_outcome.
  rewrite (call_fetch_settled _ _ _ _ _ Hin), Hstatus. reflexivity.
Qed.

Lemma request_other_failure (config : ClientApiConfig) (op : operation)
    (url : string) (options : RequestOptions) (response : Response) :
  In (EvFetch url options (inr response)) (trace (call config op)) ->
  ok response = false ->
  status response <> 401%N -> status response <> 404%N ->
  outcome (request config url options) = failure_of response.
Proof.
  intros Hin Hok H401 H404.
  rewrite request_outcome, (call_fetch_settled _ _ _ _ _ Hin).
  apply N.eqb_neq in H401, H404. now rewrite H401, H404, Hok.
Qed.

(** C3: for every client operation, when the transport answers with a
    status outside 200-299 other than 401 and 404, and the body decodes to an
    object whose [errors] property is an array of strings, the call is
    rejected with a generic [Error] whose message is exactly
    "Request failed with <status>, " followed by the strings joined with
    single spaces. *)
Theorem generic_failure_message (config : ClientApiConfig) (op : operation)
    (url : string) (options : RequestOptions) (response : Response)
    (members : list (string * jsval)) (strings : list string) :
  In (EvFetch url options (inr response)) (trace (call config op)) ->
  ok response = false ->
  status response <> 401%N -> status response <> 404%N ->
  json_body response = Some (JObj members) ->
  own_property members "errors" = Some (JArr (map JStr strings)) ->
  outcome (call config op)
  = inl (Error ("Request failed with " ++ status_to_string (status response)
                  ++ ", " ++ String.concat " " strings)).
Proof.
  intros Hin Hok H401 H404 Hbody Herrors.
  apply (call_fails_with_request config op url options response _ Hin).
  rewrite (request_other_failure config op url options response)
    by assumption.
  unfold failure_of, Response_json. rewrite Hbody.
  cbn [Get field_name]. rewrite Herrors.
  cbn [map_identity]. rewrite map_id, join_strings. reflexivity.
Qed.

(** C9: for every client operation, when the transport answers with a
    status outside 200-299 other than 401 and 404 and the body is not
    well-formed JSON, or decodes to a value without an [errors] array, the
    call is rejected with the runtime's own error ([SyntaxError] from the
    decoding, [TypeError] from reading the array), which is none of
    [UnauthorizedError], [NotFoundError] and the generic [Error]. *)
Theorem undecodable_failure_propagates (config : ClientApiConfig)
    (op : operation) (url : string) (options : RequestOptions)
    (response : Response) :
  In (EvFetch url options (inr response)) (trace (call config op)) ->
  ok response = false ->
  status response <> 401%N -> status response <> 404%N ->
  (json_body response = None
   \/ exists payload,
        json_body response = Some payload
        /\ forall elements, Get payload errors <> inr (JArr elements)) ->
  exists e,
    outcome (call config op) = inl e
    /\ ~ classified e
    /\ (json_body response = None -> e = SyntaxError)
    /\ (json_body response <> None -> e = TypeError).
Proof.
  intros Hin Hok H401 H404 Hbody.
  pose proof (request_other_failure config op url options response
                Hin Hok H401 H404) as Hreq.
  assert (Hnot : forall e, e = SyntaxError \/ e = TypeError -> ~ classified e).
  { intros e [-> | ->] [H|[H|[message H]]]; discriminate. }
  destruct Hbody as [Hnone | (payload & Hsome & Hlacks)].
  - exists SyntaxError. repeat split.
    + apply (call_fails_with_request config op url options response _ Hin).
      rewrite Hreq. unfold failure_of, Response_json. now rewrite Hnone.
    + apply Hnot. now left.
    + intros Hneq. congruence.
  - exists TypeError. repeat split.
    + apply (call_fails_with_request config op url options response _ Hin).
      rewrite Hreq. unfold failure_of, Response_json. rewrite Hsome.
      destruct (Get payload errors) as [e|errs] eqn:Hget.
      * destruct payload; simpl in Hget; try discriminate;
          try (injection Hget as <-; reflexivity).
        destruct (own_property members "errors"); discriminate.
      * destruct errs; try reflexivity.
        exfalso. now apply (Hlacks elements).
    + apply Hnot. now right.
    + intros Hnone. congruence.
Qed.

(** ** What the accessors return *)

Lemma Get_field_value (decoded : jsval) (f : field) :
  decoded <> JNull -> decoded <> JUndefined ->
  Get decoded f = inr (field_value decoded f).
Proof.
  intros Hnull Hundef.
  destruct decoded; try reflexivity; try congruence.
  simpl. destruct (own_property members (field_name f)); reflexivity.
Qed.

Lemma accessor_returns config locate f url options response decoded :
  In (EvFetch url options (inr response))
     (trace (accessor config locate f)) ->
  ok response = true ->
  json_body response = Some decoded ->
  outcome (accessor config locate f) = Get decoded f.
Proof.
  rewrite accessor_trace, accessor_outcome. intros Hin Hok Hbody.
  destruct (getBaseUrl (discoveryApi config) "proxy") as [e|base].
  - now destruct Hin as [Hin|[]].
  - destruct Hin as [Hin|[Hin|[]]]; [discriminate|].
    injection Hin as _ _ Hfetch.
    rewrite request_outcome, Hfetch.
    assert (H401 : (status response =? 401)%N = false).
    { unfold ok in Hok. apply andb_true_iff in Hok.
      destruct Hok as [_ Hle]. apply N.leb_le in Hle.
      apply N.eqb_neq. lia. }
    assert (H404 : (status response =? 404)%N = false).
    { unfold ok in Hok. apply andb_true_iff in Hok.
      destruct Hok as [_ Hle]. apply N.leb_le in Hle.
      apply N.eqb_neq. lia. }
    rewrite H401, H404, Hok. cbn [negb].
    unfold Response_json. now rewrite Hbody.
Qed.

(** C4 (amended): for a response with a status in 200-299 whose body decodes
    to a JSON value other than [null], each typed accessor resolves to
    exactly the named top-level property of the decoded body ([undefined]
    when there is none), unfiltered: [services], [service], [incidents],
    [change_events] and [oncalls] respectively. *)
Theorem accessors_return_named_field (config : ClientApiConfig)
    (response : Response) (decoded : jsval) :
  ok response = true ->
  json_body response = Some decoded ->
  decoded <> JNull -> decoded <> JUndefined ->
  (forall key url options,
      In (EvFetch url options (inr response))
         (trace (getServiceByIntegrationKey config key)) ->
      outcome (getServiceByIntegrationKey config key)
      = inr (field_value decoded services))
  /\ (forall id url options,
      In (EvFetch url options (inr response))
         (trace (getServiceByServiceId config id)) ->
      outcome (getServiceByServiceId config id)
      = inr (field_value decoded service))
  /\ (forall id url options,
      In (EvFetch url options (inr response))
         (trace (getIncidentsByServiceId config id)) ->
      outcome (getIncidentsByServiceId config id)
      = inr (field_value decoded incidents))
  /\ (forall id url options,
      In (EvFetch url options (inr response))
         (trace (getChangeEventsByServiceId config id)) ->
      outcome (getChangeEventsByServiceId config id)
      = inr (field_value decoded change_events))
  /\ (forall id url options,
      In (EvFetch url options (inr response))
         (trace (getOnCallByPolicyId config id)) ->
      outcome (getOnCallByPolicyId config id)
      = inr (field_value decoded oncalls)).
Proof.
  intros Hok Hbody Hnull Hundef.
  repeat split; intros input url options Hin.
  - rewrite getServiceByIntegrationKey_accessor in *.
    rewrite (accessor_returns _ _ _ _ _ _ _ Hin Hok Hbody).
    now apply Get_field_value.
  - rewrite getServiceByServiceId_accessor in *.
    rewrite (accessor_returns _ _ _ _ _ _ _ Hin Hok Hbody).
    now apply Get_field_value.
  - rewrite getIncidentsByServiceId_accessor in *.
    rewrite (accessor_returns _ _ _ _ _ _ _ Hin Hok Hbody).
    now apply Get_field_value.
  - rewrite getChangeEventsByServiceId_accessor in *.
    rewrite (accessor_returns _ _ _ _ _ _ _ Hin Hok Hbody).
    now apply Get_field_value.
  - rewrite getOnCallByPolicyId_accessor in *.
    rewrite (accessor_returns _ _ _ _ _ _ _ Hin Hok Hbody).
    now apply Get_field_value.
Qed.

(** ** [triggerAlarm] *)

Lemma stringify_posted_event (alarm : TriggerAlarmRequest) :
  JSON_stringify (triggerAlarm_event alarm)
  = JSON_stringify (posted_event alarm).
Proof.
  destruct alarm as [key src descr [name|]]; reflexivity.
Qed.

Lemma posted_event_textual (alarm : TriggerAlarmRequest) :
  textual (posted_event alarm) = true.
Proof.
  destruct alarm as [key src descr [name|]]; reflexivity.
Qed.

(** C5: for every request, [triggerAlarm] hands the transport exactly one
    POST to [<eventsBase>/enqueue] whose body is JSON text; read back, it is
    an object with [event_action] "trigger", [routing_key] the integration
    key, [client] "Backstage", [client_url] the source, and a [payload] with
    [summary] the description, [source] the source, [severity] "error",
    [class] "manual trigger" and a [custom_details] object holding the user
    name; without a user name the body is still JSON text, with an empty
    [custom_details]. *)
Theorem triggerAlarm_posts_event (config : ClientApiConfig)
    (alarm : TriggerAlarmRequest) :
  exists text,
    let url := events_base config ++ "/enqueue" in
    let options :=
      {| method := "POST";
         headers := [("Content-Type", "application/json; charset=UTF-8");
                     ("Accept", "application/json, text/plain, */*")];
         body := Some text |} in
    trace (triggerAlarm config alarm)
    = [EvFetch url options (fetch (fetchApi config) url options)]
    /\ forall Number_repr,
         JSON_parse Number_repr text
         = Some
             (JObj
                [("event_action", JStr "trigger");
                 ("routing_key", JStr (integrationKey alarm));
                 ("client", JStr "Backstage");
                 ("client_url", JStr (source alarm));
                 ("payload",
                  JObj
                    [("summary", JStr (description alarm));
                     ("source", JStr (source alarm));
                     ("severity", JStr "error");
                     ("class", JStr "manual trigger");
                     ("custom_details",
                      JObj match userName alarm with
                           | Some name => [("user", JStr name)]
                           | None => []
                           end)])]).
Proof.
  exists (element_text (posted_event alarm)).
  pose proof (textual_stringify _ (posted_event_textual alarm)) as Htext.
  split.
  - rewrite triggerAlarm_unfold, request_trace.
    unfold triggerAlarm_options.
    now rewrite stringify_posted_event, Htext.
  - intros Number_repr.
    apply (JSON_parse_stringify Number_repr (posted_event alarm));
      [apply posted_event_textual | exact Htext].
Qed.

(** ** The requests the accessors issue *)

Lemma accessor_log config locate f base :
  getBaseUrl (discoveryApi config) "proxy" = inr base ->
  trace (accessor config locate f) = get_log config base (locate base).
Proof. intros H. rewrite accessor_trace, H. reflexivity. Qed.

Lemma accessor_resolves config locate f base response members v :
  getBaseUrl (discoveryApi config) "proxy" = inr base ->
  fetch (fetchApi config) (locate base) getByUrl_options = inr response ->
  ok response = true ->
  json_body response = Some (JObj members) ->
  own_property members (field_name f) = Some v ->
  outcome (accessor config locate f) = inr v.
Proof.
  intros Hbase Hfetch Hok Hbody Hfield.
  rewrite (accessor_returns config locate f (locate base) getByUrl_options
             response (JObj members)); try assumption.
  - simpl. now rewrite Hfield.
  - rewrite (accessor_log _ _ _ _ Hbase). right. left. now rewrite Hfetch.
Qed.

(** *** Taking a URL apart *)

Lemma is_safe_char_not_delimiter (c : ascii) :
  is_safe_char c = true ->
  ends_path c = false /\ Ascii.eqb c "#" = false /\ Ascii.eqb c "&" = false.
Proof.
  destruct c as [b0 b1 b2 b3 b4 b5 b6 b7].
  destruct b0, b1, b2, b3, b4, b5, b6, b7; intros H;
    try discriminate H; repeat split.
Qed.

Lemma safe_plain (s : string) : safe s = true -> plain s = true.
Proof.
  induction s as [|c s IH]; simpl; [reflexivity|].
  intros H. apply andb_true_iff in H. destruct H as [Hc Hs].
  destruct (is_safe_char_not_delimiter c Hc) as (-> & _). simpl.
  now apply IH.
Qed.

Lemma until_hash_safe (s : string) :
  safe s = true -> until_hash s = s.
Proof.
  induction s as [|c s IH]; simpl; [reflexivity|].
  intros H. apply andb_true_iff in H. destruct H as [Hc Hs].
  destruct (is_safe_char_not_delimiter c Hc) as (_ & -> & _).
  now rewrite IH.
Qed.

Lemma until_hash_safe_append (s t : string) :
  safe s = true -> until_hash (s ++ t) = s ++ until_hash t.
Proof.
  induction s as [|c s IH]; simpl; [reflexivity|].
  intros H. apply andb_true_iff in H. destruct H as [Hc Hs].
  destruct (is_safe_char_not_delimiter c Hc) as (_ & -> & _).
  now rewrite IH.
Qed.

Lemma segments_safe (s : string) :
  safe s = true -> segments s = [s].
Proof.
  induction s as [|c s IH]; simpl; [reflexivity|].
  intros H. apply andb_true_iff in H. destruct H as [Hc Hs].
  destruct (is_safe_char_not_delimiter c Hc) as (_ & _ & ->).
  now rewrite IH.
Qed.

Lemma url_query_plain (a b : string) :
  plain a = true -> url_query (a ++ b) = url_query b.
Proof.
  induction a as [|c a IH]; simpl; [reflexivity|].
  intros H. apply andb_true_iff in H. destruct H as [Hc Ha].
  unfold ends_path in Hc. apply negb_true_iff, orb_false_iff in Hc.
  destruct Hc as [-> ->]. now apply IH.
Qed.

Lemma url_before_query_plain (a b : string) :
  plain a = true -> url_before_query (a ++ b) = a ++ url_before_query b.
Proof.
  induction a as [|c a IH]; simpl; [reflexivity|].
  intros H. apply andb_true_iff in H. destruct H as [Hc Ha].
  apply negb_true_iff in Hc. rewrite Hc. now rewrite IH.
Qed.

(** C6 (amended): with [base] the URL the discovery function returns for
    "proxy", [getServiceByIntegrationKey] issues a GET to the URL text
    [<base>/pagerduty/services?time_zone=UTC&include[]=integrations&include[]=escalation_policies&query=<key>]
    and [getServiceByServiceId] a GET to
    [<base>/pagerduty/services/<id>?time_zone=UTC&include[]=integrations&include[]=escalation_policies],
    the key or id inserted as given.  When [base] holds no [?] or [#] and
    the key or id is made only of letters, digits, [-], [_] and [~], the
    part of the URL before the query is [<base>/pagerduty/services]
    (followed by [/<id>] for the lookup by id) and the query parameters are
    exactly time_zone=UTC, include[]=integrations,
    include[]=escalation_policies and, for the lookup by key, query=<key>. *)
Theorem service_requests (config : ClientApiConfig) (base : string) :
  getBaseUrl (discoveryApi config) "proxy" = inr base ->
  method getByUrl_options = "GET"
  /\ (forall key,
         let url :=
           base ++ "/pagerduty/services?time_zone=UTC&include[]=integrations&include[]=escalation_policies&query="
                ++ key in
         trace (getServiceByIntegrationKey config key)
         = get_log config base url
         /\ (plain base = true -> safe key = true ->
             url_before_query url = base ++ "/pagerduty/services"
             /\ option_map query_parameters (url_query url)
                = Some [("time_zone", "UTC");
                        ("include[]", "integrations");
                        ("include[]", "escalation_policies");
                        ("query", key)]))
  /\ (forall id,
         let url :=
           base ++ "/pagerduty/services/" ++ id
                ++ "?time_zone=UTC&include[]=integrations&include[]=escalation_policies" in
         trace (getServiceByServiceId config id) = get_log config base url
         /\ (plain base = true -> safe id = true ->
             url_before_query url = base ++ "/pagerduty/services/" ++ id
             /\ option_map query_parameters (url_query url)
                = Some [("time_zone", "UTC");
                        ("include[]", "integrations");
                        ("include[]", "escalation_policies")])).
Proof.
  intros Hbase. split; [reflexivity|]. split; intros input url; unfold url.
  - split.
    + rewrite getServiceByIntegrationKey_accessor.
      now rewrite (accessor_log _ _ _ _ Hbase).
    + intros Hplain Hinput. split.
      * rewrite (url_before_query_plain _ _ Hplain). reflexivity.
      * rewrite (url_query_plain _ _ Hplain).
        cbn [append url_query until_hash Ascii.eqb Bool.eqb option_map].
        rewrite (until_hash_safe _ Hinput). unfold query_parameters.
        cbn [segments Ascii.eqb Bool.eqb].
        rewrite (segments_safe _ Hinput). reflexivity.
  - split.
    + rewrite getServiceByServiceId_accessor.
      now rewrite (accessor_log _ _ _ _ Hbase).
    + intros Hplain Hinput.
      pose proof (safe_plain _ Hinput) as Hid. split.
      * rewrite (url_before_query_plain _ _ Hplain).
        cbn [append url_before_query ends_path Ascii.eqb Bool.eqb orb].
        rewrite (url_before_query_plain _ _ Hid).
        cbn [append url_before_query ends_path Ascii.eqb Bool.eqb orb].
        now rewrite append_empty_r.
      * rewrite (url_query_plain _ _ Hplain).
        cbn [append url_query Ascii.eqb Bool.eqb].
        rewrite (url_query_plain _ _ Hid). reflexivity.
Qed.


(** C8 (amended): with the proxy resolved to [base],
    [getChangeEventsByServiceId] issues a GET to the URL text
    [<base>/pagerduty/services/<id>/change_events?limit=5&time_zone=UTC&sort_by=timestamp],
    the id inserted as given.  When [base] holds no [?] or [#] and the id is
    made only of letters, digits, [-], [_] and [~], the part of the URL
    before the query is [/services/<id>/change_events] under the proxied
    PagerDuty API, [<base>/pagerduty], and the query parameters are exactly
    limit=5, time_zone=UTC and sort_by=timestamp.  On a 2xx response the call resolves to the
    [change_events] array of the decoded body. *)
Theorem change_events_request (config : ClientApiConfig) (base id : string) :
  getBaseUrl (discoveryApi config) "proxy" = inr base ->
  let url :=
    (base ++ "/pagerduty") ++ "/services/" ++ id ++ "/change_events"
      ++ "?" ++ "limit=5&time_zone=UTC&sort_by=timestamp" in
  method getByUrl_options = "GET"
  /\ trace (getChangeEventsByServiceId config id) = get_log config base url
  /\ (plain base = true -> safe id = true ->
      url_before_query url
      = (base ++ "/pagerduty") ++ "/services/" ++ id ++ "/change_events"
      /\ option_map query_parameters (url_query url)
         = Some [("limit", "5"); ("time_zone", "UTC");
                 ("sort_by", "timestamp")])
  /\ (forall response members elements,
         fetch (fetchApi config) url getByUrl_options = inr response ->
         ok response = true ->
         json_body response = Some (JObj members) ->
         own_property members "change_events" = Some (JArr elements) ->
         outcome (getChangeEventsByServiceId config id)
         = inr (JArr elements)).
Proof.
  intros Hbase url.
  assert (Hurl : url = location (GetChangeEventsByServiceId id) base).
  { unfold url, location. rewrite append_assoc. reflexivity. }
  split; [reflexivity|].
  rewrite getChangeEventsByServiceId_accessor, Hurl. split; [|split].
  - now rewrite (accessor_log _ _ _ _ Hbase).
  - intros Hplain Hinput.
    pose proof (safe_plain _ Hinput) as Hid.
    unfold location. rewrite !append_assoc. split.
    + rewrite (url_before_query_plain _ _ Hplain).
      cbn [append url_before_query ends_path Ascii.eqb Bool.eqb orb].
      rewrite (url_before_query_plain _ _ Hid). reflexivity.
    + rewrite (url_query_plain _ _ Hplain).
      cbn [append url_query Ascii.eqb Bool.eqb].
      rewrite (url_query_plain _ _ Hid). reflexivity.
  - intros response members elements Hfetch Hok Hbody Hfield.
    now apply (accessor_resolves _ _ _ base response members).
Qed.

(** ** Raw interpolation *)

Lemma separators_append (a b : string) :
  separators (a ++ b) = separators a ++ separators b.
Proof.
  induction a as [|c a IH]; simpl; [reflexivity|].
  destruct (is_separator c); simpl; now rewrite IH.
Qed.

Lemma separators_none (s : string) :
  has_separator s = false -> separators s = "".
Proof.
  induction s as [|c s IH]; simpl; [reflexivity|].
  destruct (is_separator c); [discriminate | exact IH].
Qed.

Lemma separators_some (s : string) :
  has_separator s = true -> separators s <> "".
Proof.
  induction s as [|c s IH]; simpl; [discriminate|].
  destruct (is_separator c); [discriminate | exact IH].
Qed.

Lemma append_cancel (a b c : string) : a ++ b = a ++ c -> b = c.
Proof.
  induction a as [|x a IH]; simpl; [trivial|].
  intros H. injection H as H. now apply IH.
Qed.

(** A query that ends with what the input contributes to it: an input with
    a separator before any [#] yields a query whose separators differ from
    those of an input without. *)
Lemma trailing_input_restructures (fixed input benign : string) :
  has_separator (until_hash input) = true ->
  has_separator (until_hash benign) = false ->
  Some (separators (fixed ++ until_hash input))
  <> Some (separators (fixed ++ until_hash benign)).
Proof.
  intros Hin Hben H.
  assert (H' : separators (fixed ++ until_hash input)
               = separators (fixed ++ until_hash benign))
    by exact (f_equal (fun o => match o with
                                | Some t => t
                                | None => EmptyString
                                end) H).
  rewrite !separators_append in H'.
  rewrite (separators_none _ Hben) in H'.
  apply append_cancel in H'. now apply (separators_some _ Hin).
Qed.

(** C10 (amended): the caller's string goes into the URL as it is: with the
    proxy resolved to [base], every accessor fetches the fixed text wrapped
    around the raw input.  Where the input ends the query (integration key,
    service id of the incidents query, escalation policy id) and [base]
    holds no [?] or [#], an input in which [&] or [=] occurs before any [#]
    yields a query whose sequence of separators differs from the one an
    input without them yields. *)
Theorem raw_interpolation (config : ClientApiConfig) (base : string) :
  getBaseUrl (discoveryApi config) "proxy" = inr base ->
  let by_key key :=
    base ++ "/pagerduty/services?time_zone=UTC&include[]=integrations&include[]=escalation_policies&query="
         ++ key in
  let by_id id :=
    base ++ "/pagerduty/services/" ++ id
         ++ "?time_zone=UTC&include[]=integrations&include[]=escalation_policies" in
  let incidents_of id :=
    base ++ "/pagerduty/incidents?time_zone=UTC&sort_by=created_at&statuses[]=triggered&statuses[]=acknowledged&service_ids[]="
         ++ id in
  let changes_of id :=
    base ++ "/pagerduty/services/" ++ id
         ++ "/change_events?limit=5&time_zone=UTC&sort_by=timestamp" in
  let oncalls_of id :=
    base ++ "/pagerduty/oncalls?time_zone=UTC&include[]=users&escalation_policy_ids[]="
         ++ id in
  (forall input,
      fetched_urls (trace (getServiceByIntegrationKey config input))
      = [by_key input]
      /\ fetched_urls (trace (getServiceByServiceId config input))
         = [by_id input]
      /\ fetched_urls (trace (getIncidentsByServiceId config input))
         = [incidents_of input]
      /\ fetched_urls (trace (getChangeEventsByServiceId config input))
         = [changes_of input]
      /\ fetched_urls (trace (getOnCallByPolicyId config input))
         = [oncalls_of input])
  /\ (plain base = true ->
      forall input benign,
        has_separator (until_hash input) = true ->
        has_separator (until_hash benign) = false ->
        option_map separators (url_query (by_key input))
        <> option_map separators (url_query (by_key benign))
        /\ option_map separators (url_query (incidents_of input))
           <> option_map separators (url_query (incidents_of benign))
        /\ option_map separators (url_query (oncalls_of input))
           <> option_map separators (url_query (oncalls_of benign))).
Proof.
  intros Hbase by_key by_id incidents_of changes_of oncalls_of. split.
  - intros input.
    rewrite getServiceByIntegrationKey_accessor, getServiceByServiceId_accessor,
      getIncidentsByServiceId_accessor, getChangeEventsByServiceId_accessor,
      getOnCallByPolicyId_accessor.
    rewrite !(accessor_log _ _ _ _ Hbase).
    repeat split; reflexivity.
  - intros Hplain input benign Hin Hben.
    unfold by_key, incidents_of, oncalls_of.
    rewrite !(url_query_plain _ _ Hplain).
    split; [|split].
    + exact (trailing_input_restructures
               "time_zone=UTC&include[]=integrations&include[]=escalation_policies&query="
               input benign Hin Hben).
    + exact (trailing_input_restructures
               "time_zone=UTC&sort_by=created_at&statuses[]=triggered&statuses[]=acknowledged&service_ids[]="
               input benign Hin Hben).
    + exact (trailing_input_restructures
               "time_zone=UTC&include[]=users&escalation_policy_ids[]="
               input benign Hin Hben).
Qed.

(** ** Concrete scenarios *)

Lemma unauthorized_on_401_witness :
  In (EvFetch (location (GetServiceByServiceId "def456") proxy_base)
        getByUrl_options (inr unauthorized_stub))
     (trace (call (stub_config proxy_base unauthorized_stub)
               (GetServiceByServiceId "def456")))
  /\ status unauthorized_stub = 401%N
  /\ outcome (call (stub_config proxy_base unauthorized_stub)
                (GetServiceByServiceId "def456"))
     = inl UnauthorizedError.
Proof.
  assert (Hin : In (EvFetch (location (GetServiceByServiceId "def456")
                               proxy_base)
                      getByUrl_options (inr unauthorized_stub))
                   (trace (call (stub_config proxy_base unauthorized_stub)
                             (GetServiceByServiceId "def456"))))
    by (right; left; reflexivity).
  split; [exact Hin | split; [reflexivity|]].
  exact (proj1 (unauthorized_on_401 _ _ _ _ _ Hin eq_refl)).
Defined.

Lemma not_found_on_404_witness :
  In (EvFetch (location (GetIncidentsByServiceId "S1") proxy_base)
        getByUrl_options (inr missing_stub))
     (trace (call (stub_config proxy_base missing_stub)
               (GetIncidentsByServiceId "S1")))
  /\ status missing_stub = 404%N
  /\ outcome (call (stub_config proxy_base missing_stub)
                (GetIncidentsByServiceId "S1"))
     = inl NotFoundError.
Proof.
  assert (Hin : In (EvFetch (location (GetIncidentsByServiceId "S1")
                               proxy_base)
                      getByUrl_options (inr missing_stub))
                   (trace (call (stub_config proxy_base missing_stub)
                             (GetIncidentsByServiceId "S1"))))
    by (right; left; reflexivity).
  split; [exact Hin | split; [reflexivity|]].
  exact (proj1 (not_found_on_404 _ _ _ _ _ Hin eq_refl)).
Defined.

Lemma generic_failure_message_witness :
  In (EvFetch (location (TriggerAlarm sample_alarm)
                 "https://events.pagerduty.com/v2")
        (triggerAlarm_options sample_alarm) (inr failing_stub))
     (trace (call (stub_config proxy_base failing_stub)
               (TriggerAlarm sample_alarm)))
  /\ ok failing_stub = false
  /\ status failing_stub <> 401%N /\ status failing_stub <> 404%N
  /\ json_body failing_stub
     = Some (JObj [("errors",
                    JArr (map JStr ["Invalid Input Provided"; "Bad token"]))])
  /\ outcome (call (stub_config proxy_base failing_stub)
                (TriggerAlarm sample_alarm))
     = inl (Error "Request failed with 500, Invalid Input Provided Bad token").
Proof.
  assert (Hin : In (EvFetch (location (TriggerAlarm sample_alarm)
                               "https://events.pagerduty.com/v2")
                      (triggerAlarm_options sample_alarm) (inr failing_stub))
                   (trace (call (stub_config proxy_base failing_stub)
                             (TriggerAlarm sample_alarm))))
    by (left; reflexivity).
  assert (H401 : status failing_stub <> 401%N) by discriminate.
  assert (H404 : status failing_stub <> 404%N) by discriminate.
  assert (Hbody : json_body failing_stub
                  = Some (JObj [("errors",
                                 JArr (map JStr ["Invalid Input Provided";
                                                 "Bad token"]))]))
    by reflexivity.
  split; [exact Hin|]. split; [reflexivity|].
  split; [exact H401|]. split; [exact H404|]. split; [exact Hbody|].
  exact (generic_failure_message _ _ _ _ _ _
           ["Invalid Input Provided"; "Bad token"]
           Hin eq_refl H401 H404 Hbody eq_refl).
Defined.

Lemma undecodable_failure_propagates_witness :
  (In (EvFetch (location (GetOnCallByPolicyId "P1") proxy_base)
         getByUrl_options (inr gateway_stub))
      (trace (call (stub_config proxy_base gateway_stub)
                (GetOnCallByPolicyId "P1")))
   /\ ok gateway_stub = false /\ json_body gateway_stub = None
   /\ exists e,
        outcome (call (stub_config proxy_base gateway_stub)
                   (GetOnCallByPolicyId "P1")) = inl e
        /\ ~ classified e
        /\ (json_body gateway_stub = None -> e = SyntaxError)
        /\ (json_body gateway_stub <> None -> e = TypeError))
  /\ (In (EvFetch (location (GetOnCallByPolicyId "P1") proxy_base)
            getByUrl_options (inr shapeless_stub))
         (trace (call (stub_config proxy_base shapeless_stub)
                   (GetOnCallByPolicyId "P1")))
      /\ ok shapeless_stub = false
      /\ json_body shapeless_stub = Some (JObj [("message", JStr "boom")])
      /\ exists e,
           outcome (call (stub_config proxy_base shapeless_stub)
                      (GetOnCallByPolicyId "P1")) = inl e
           /\ ~ classified e
           /\ (json_body shapeless_stub = None -> e = SyntaxError)
           /\ (json_body shapeless_stub <> None -> e = TypeError)).
Proof.
  split.
  - assert (Hin : In (EvFetch (location (GetOnCallByPolicyId "P1") proxy_base)
                        getByUrl_options (inr gateway_stub))
                     (trace (call (stub_config proxy_base gateway_stub)
                               (GetOnCallByPolicyId "P1"))))
      by (right; left; reflexivity).
    assert (H401 : status gateway_stub <> 401%N) by discriminate.
    assert (H404 : status gateway_stub <> 404%N) by discriminate.
    split; [exact Hin | split; [reflexivity | split; [reflexivity|]]].
    exact (undecodable_failure_propagates _ _ _ _ _ Hin eq_refl H401 H404
             (or_introl eq_refl)).
  - assert (Hin : In (EvFetch (location (GetOnCallByPolicyId "P1") proxy_base)
                        getByUrl_options (inr shapeless_stub))
                     (trace (call (stub_config proxy_base shapeless_stub)
                               (GetOnCallByPolicyId "P1"))))
      by (right; left; reflexivity).
    assert (H401 : status shapeless_stub <> 401%N) by discriminate.
    assert (H404 : status shapeless_stub <> 404%N) by discriminate.
    split; [exact Hin | split; [reflexivity | split; [reflexivity|]]].
    apply (undecodable_failure_propagates _ _ _ _ _ Hin eq_refl H401 H404).
    right. exists (JObj [("message", JStr "boom")]).
    split; [reflexivity | intros elements; discriminate].
Defined.

(** A 2xx response whose body is the JSON text [null]: the body is
    well-formed, yet the accessor does not resolve; destructuring [null]
    throws. *)
Lemma accessor_null_body_counterexample :
  ok null_stub = true
  /\ json_body null_stub = Some JNull
  /\ In (EvFetch (location (GetServiceByServiceId "def456") proxy_base)
           getByUrl_options (inr null_stub))
        (trace (getServiceByServiceId (stub_config proxy_base null_stub)
                  "def456"))
  /\ outcome (getServiceByServiceId (stub_config proxy_base null_stub)
                "def456")
     = inl TypeError.
Proof.
  split; [reflexivity|]. split; [reflexivity|].
  split; [right; left; reflexivity | reflexivity].
Qed.

Lemma accessors_return_named_field_witness :
  ok service_stub = true
  /\ json_body service_stub
     = Some (JObj [("service",
                    JObj [("id", JStr "def456"); ("name", JStr "X")])])
  /\ outcome (getServiceByServiceId (stub_config proxy_base service_stub)
                "def456")
     = inr (JObj [("id", JStr "def456"); ("name", JStr "X")])
  /\ own_property [("id", JStr "def456"); ("name", JStr "X")] "id"
     = Some (JStr "def456").
Proof.
  assert (Hbody : json_body service_stub
                  = Some (JObj [("service",
                                 JObj [("id", JStr "def456");
                                       ("name", JStr "X")])]))
    by reflexivity.
  assert (Hnull : JObj [("service",
                         JObj [("id", JStr "def456"); ("name", JStr "X")])]
                  <> JNull) by discriminate.
  assert (Hundef : JObj [("service",
                          JObj [("id", JStr "def456"); ("name", JStr "X")])]
                   <> JUndefined) by discriminate.
  assert (Hin : In (EvFetch (location (GetServiceByServiceId "def456")
                               proxy_base)
                      getByUrl_options (inr service_stub))
                   (trace (getServiceByServiceId
                             (stub_config proxy_base service_stub) "def456")))
    by (right; left; reflexivity).
  split; [reflexivity|]. split; [exact Hbody|]. split; [|reflexivity].
  exact (proj1 (proj2 (accessors_return_named_field
                         (stub_config proxy_base service_stub) service_stub _
                         eq_refl Hbody Hnull Hundef))
           "def456" _ _ Hin).
Defined.

(** With the proxy at [proxy_base], the URL fetched is not
    [<proxy_base>/services?...]: the path goes through [/pagerduty]; and a
    key that holds [&] adds parameters of its own, so that the [query]
    parameter is not the key. *)
Lemma service_requests_counterexample :
  getBaseUrl (discoveryApi (stub_config proxy_base service_stub)) "proxy"
  = inr proxy_base
  /\ fetched_urls
       (trace (getServiceByIntegrationKey
                 (stub_config proxy_base service_stub) "abc123"))
     <> [proxy_base
           ++ "/services?time_zone=UTC&include[]=integrations&include[]=escalation_policies&query="
           ++ "abc123"]
  /\ fetched_urls
       (trace (getServiceByServiceId
                 (stub_config proxy_base service_stub) "def456"))
     <> [proxy_base ++ "/services/" ++ "def456"
           ++ "?time_zone=UTC&include[]=integrations&include[]=escalation_policies"]
  /\ map (fun url => option_map query_parameters (url_query url))
         (fetched_urls
            (trace (getServiceByIntegrationKey
                      (stub_config proxy_base service_stub)
                      "k&time_zone=PST&include[]=teams")))
     = [Some [("time_zone", "UTC");
              ("include[]", "integrations");
              ("include[]", "escalation_policies");
              ("query", "k");
              ("time_zone", "PST");
              ("include[]", "teams")]].
Proof.
  split; [reflexivity|].
  split; [vm_compute; discriminate|].
  split; [vm_compute; discriminate | reflexivity].
Qed.

Lemma service_requests_witness :
  getBaseUrl (discoveryApi (stub_config proxy_base service_stub)) "proxy"
  = inr proxy_base
  /\ plain proxy_base = true
  /\ safe "abc123" = true /\ safe "def456" = true
  /\ fetched_urls
       (trace (getServiceByIntegrationKey
                 (stub_config proxy_base service_stub) "abc123"))
     = ["http://localhost:7007/api/proxy/pagerduty/services?time_zone=UTC&include[]=integrations&include[]=escalation_policies&query=abc123"]
  /\ option_map query_parameters
       (url_query
          "http://localhost:7007/api/proxy/pagerduty/services?time_zone=UTC&include[]=integrations&include[]=escalation_policies&query=abc123")
     = Some [("time_zone", "UTC");
             ("include[]", "integrations");
             ("include[]", "escalation_policies");
             ("query", "abc123")]
  /\ fetched_urls
       (trace (getServiceByServiceId
                 (stub_config proxy_base service_stub) "def456"))
     = ["http://localhost:7007/api/proxy/pagerduty/services/def456?time_zone=UTC&include[]=integrations&include[]=escalation_policies"]
  /\ url_before_query
       "http://localhost:7007/api/proxy/pagerduty/services/def456?time_zone=UTC&include[]=integrations&include[]=escalation_policies"
     = "http://localhost:7007/api/proxy/pagerduty/services/def456".
Proof.
  split; [reflexivity|]. split; [reflexivity|].
  split; [reflexivity|]. split; [reflexivity|].
  destruct (service_requests (stub_config proxy_base service_stub) proxy_base
              eq_refl) as (_ & Hkey & Hid).
  destruct (Hkey "abc123") as [Hkey_log Hkey_parts].
  destruct (Hid "def456") as [Hid_log Hid_parts].
  split; [rewrite Hkey_log; reflexivity|].
  split; [exact (proj2 (Hkey_parts eq_refl eq_refl))|].
  split; [rewrite Hid_log; reflexivity|].
  exact (proj1 (Hid_parts eq_refl eq_refl)).
Defined.



(** An id that holds [?]: the request goes to the service itself, with a
    limit of 100 and no limit of 5. *)
Lemma change_events_request_counterexample :
  getBaseUrl (discoveryApi (stub_config proxy_base change_events_stub))
    "proxy" = inr proxy_base
  /\ map url_before_query
         (fetched_urls
            (trace (getChangeEventsByServiceId
                      (stub_config proxy_base change_events_stub)
                      "S1?limit=100&x=")))
     = ["http://localhost:7007/api/proxy/pagerduty/services/S1"]
  /\ map (fun url => option_map query_parameters (url_query url))
         (fetched_urls
            (trace (getChangeEventsByServiceId
                      (stub_config proxy_base change_events_stub)
                      "S1?limit=100&x=")))
     = [Some [("limit", "100");
              ("x", "/change_events?limit=5");
              ("time_zone", "UTC");
              ("sort_by", "timestamp")]].
Proof.
  split; [reflexivity|]. split; reflexivity.
Qed.

Lemma change_events_request_witness :
  getBaseUrl (discoveryApi (stub_config proxy_base change_events_stub))
    "proxy" = inr proxy_base
  /\ plain proxy_base = true /\ safe "S1" = true
  /\ ok change_events_stub = true
  /\ json_body change_events_stub
     = Some (JObj [("change_events", JArr [JObj [("id", JStr "CE1")]])])
  /\ fetched_urls
       (trace (getChangeEventsByServiceId
                 (stub_config proxy_base change_events_stub) "S1"))
     = ["http://localhost:7007/api/proxy/pagerduty/services/S1/change_events?limit=5&time_zone=UTC&sort_by=timestamp"]
  /\ url_before_query
       "http://localhost:7007/api/proxy/pagerduty/services/S1/change_events?limit=5&time_zone=UTC&sort_by=timestamp"
     = "http://localhost:7007/api/proxy/pagerduty/services/S1/change_events"
  /\ option_map query_parameters
       (url_query
          "http://localhost:7007/api/proxy/pagerduty/services/S1/change_events?limit=5&time_zone=UTC&sort_by=timestamp")
     = Some [("limit", "5"); ("time_zone", "UTC"); ("sort_by", "timestamp")]
  /\ outcome (getChangeEventsByServiceId
                (stub_config proxy_base change_events_stub) "S1")
     = inr (JArr [JObj [("id", JStr "CE1")]]).
Proof.
  split; [reflexivity|]. split; [reflexivity|]. split; [reflexivity|].
  split; [reflexivity|]. split; [reflexivity|].
  destruct (change_events_request
              (stub_config proxy_base change_events_stub)
              proxy_base "S1" eq_refl) as (_ & Hlog & Hparts & Hout).
  split; [rewrite Hlog; reflexivity|].
  split; [exact (proj1 (Hparts eq_refl eq_refl))|].
  split; [exact (proj2 (Hparts eq_refl eq_refl))|].
  exact (Hout change_events_stub
           [("change_events", JArr [JObj [("id", JStr "CE1")]])]
           [JObj [("id", JStr "CE1")]]
           eq_refl eq_refl eq_refl eq_refl).
Defined.

(** An input whose [&] and [=] come after a [#]: they fall into the
    fragment, and the query is the one the input [S1] yields. *)
Lemma raw_interpolation_counterexample :
  has_separator "S1#&statuses[]=resolved" = true
  /\ has_separator "S1" = false
  /\ map url_query
         (fetched_urls
            (trace (getIncidentsByServiceId
                      (stub_config proxy_base no_incidents_stub)
                      "S1#&statuses[]=resolved")))
     = [Some "time_zone=UTC&sort_by=created_at&statuses[]=triggered&statuses[]=acknowledged&service_ids[]=S1"]
  /\ map url_query
         (fetched_urls
            (trace (getIncidentsByServiceId
                      (stub_config proxy_base no_incidents_stub) "S1")))
     = [Some "time_zone=UTC&sort_by=created_at&statuses[]=triggered&statuses[]=acknowledged&service_ids[]=S1"].
Proof.
  split; [reflexivity|]. split; [reflexivity|]. split; reflexivity.
Qed.

Lemma raw_interpolation_witness :
  getBaseUrl (discoveryApi (stub_config proxy_base no_incidents_stub)) "proxy"
  = inr proxy_base
  /\ plain proxy_base = true
  /\ has_separator (until_hash "S1&statuses[]=resolved") = true
  /\ has_separator (until_hash "S1") = false
  /\ fetched_urls
       (trace (getIncidentsByServiceId
                 (stub_config proxy_base no_incidents_stub)
                 "S1&statuses[]=resolved"))
     = ["http://localhost:7007/api/proxy/pagerduty/incidents?time_zone=UTC&sort_by=created_at&statuses[]=triggered&statuses[]=acknowledged&service_ids[]=S1&statuses[]=resolved"]
  /\ option_map separators
       (url_query
          "http://localhost:7007/api/proxy/pagerduty/incidents?time_zone=UTC&sort_by=created_at&statuses[]=triggered&statuses[]=acknowledged&service_ids[]=S1&statuses[]=resolved")
     <> option_map separators
          (url_query
             "http://localhost:7007/api/proxy/pagerduty/incidents?time_zone=UTC&sort_by=created_at&statuses[]=triggered&statuses[]=acknowledged&service_ids[]=S1").
Proof.
  split; [reflexivity|]. split; [reflexivity|]. split; [reflexivity|].
  split; [reflexivity|].
  destruct (raw_interpolation (stub_config proxy_base no_incidents_stub)
              proxy_base eq_refl) as [Hurls Hsep].
  split.
  - destruct (Hurls "S1&statuses[]=resolved") as (_ & _ & Hinc & _).
    rewrite Hinc. reflexivity.
  - exact (proj1 (proj2 (Hsep eq_refl "S1&statuses[]=resolved" "S1"
                           eq_refl eq_refl))).
Defined.

(** ** Further properties of the client *)

Lemma call_accessor_outcome config op f :
  field_of op = Some f ->
  outcome (call config op)
  = match outcome (accessor config (location op) f) with
    | inl e => inl e
    | inr v => inr (Decoded v)
    end.
Proof.
  intros H.
  destruct op; simpl in H; try discriminate; injection H as <-;
    unfold call; rewrite outcome_bind;
    [ rewrite getServiceByIntegrationKey_accessor
    | rewrite getServiceByServiceId_accessor
    | rewrite getIncidentsByServiceId_accessor
    | rewrite getChangeEventsByServiceId_accessor
    | rewrite getOnCallByPolicyId_accessor ];
    match goal with
    | |- context [outcome (accessor ?c ?l ?f)] =>
        destruct (outcome (accessor c l f)); reflexivity
    end.
Qed.

Lemma call_accessor_trace config op f :
  field_of op = Some f ->
  trace (call config op) = trace (accessor config (location op) f).
Proof.
  intros H. rewrite call_trace, accessor_trace.
  destruct op; simpl in H; try discriminate; reflexivity.
Qed.

Lemma failure_of_rejects (response : Response) :
  exists e, failure_of response = inl e.
Proof.
  unfold failure_of.
  destruct (Response_json response) as [e|payload]; [now exists e|].
  destruct (Get payload errors) as [e|errs]; [now exists e|].
  destruct (map_identity errs) as [e|mapped]; [now exists e|].
  destruct (join " " mapped) as [e|joined]; eexists; reflexivity.
Qed.

Lemma ok_excludes_401_404 (response : Response) :
  ok response = true ->
  (status response =? 401)%N = false /\ (status response =? 404)%N = false.
Proof.
  unfold ok. intros H. apply andb_true_iff in H. destruct H as [_ Hle].
  apply N.leb_le in Hle. split; apply N.eqb_neq; lia.
Qed.

Lemma same_request config u o settled url options settled' :
  EvFetch u o settled = EvFetch url options settled' ->
  outcome (request config u o) = outcome (request config url options).
Proof. intros E. injection E as -> -> _. reflexivity. Qed.

(** What the whole call settles to once the transport has settled. *)
Lemma call_outcome_after_fetch config op url options settled :
  In (EvFetch url options settled) (trace (call config op)) ->
  outcome (call config op)
  = match outcome (request config url options) with
    | inl e => inl e
    | inr response =>
        match field_of op with
        | None => inr (Raw response)
        | Some f =>
            match Response_json response with
            | inl e => inl e
            | inr decoded =>
                match Get decoded f with
                | inl e => inl e
                | inr v => inr (Decoded v)
                end
            end
        end
    end.
Proof.
  intros Hin.
  destruct (field_of op) as [f|] eqn:Hf.
  - rewrite (call_accessor_outcome _ _ _ Hf), accessor_outcome.
    rewrite (call_accessor_trace _ _ _ Hf), accessor_trace in Hin.
    destruct (getBaseUrl (discoveryApi config) "proxy") as [e|base].
    + now destruct Hin as [Hin|[]].
    + destruct Hin as [Hin|[Hin|[]]]; [discriminate|].
      rewrite (same_request config _ _ _ _ _ _ Hin).
      destruct (outcome (request config url options)) as [e|response];
        [reflexivity|].
      destruct (Response_json response) as [e|decoded]; [reflexivity|].
      destruct (Get decoded f); reflexivity.
  - destruct op; try discriminate.
    rewrite call_trace in Hin. destruct Hin as [Hin|[]].
    cbn [location options_of] in Hin.
    unfold call. rewrite outcome_bind, triggerAlarm_unfold.
    rewrite (same_request config _ _ _ _ _ _ Hin).
    destruct (outcome (request config url options)); reflexivity.
Qed.

(** X1: when the discovery function rejects, a typed accessor rejects with
    the same reason and the transport is never called. *)
Theorem discovery_rejection_propagates (config : ClientApiConfig)
    (op : operation) (f : field) (e : exn) :
  field_of op = Some f ->
  getBaseUrl (discoveryApi config) "proxy" = inl e ->
  outcome (call config op) = inl e
  /\ fetched_urls (trace (call config op)) = [].
Proof.
  intros Hf Hreject. split.
  - rewrite (call_accessor_outcome _ _ _ Hf), accessor_outcome.
    now rewrite Hreject.
  - rewrite (call_accessor_trace _ _ _ Hf), accessor_trace.
    now rewrite Hreject.
Qed.

(** X2: when the transport rejects, every operation rejects with the
    transport's own reason, unwrapped. *)
Theorem transport_rejection_propagates (config : ClientApiConfig)
    (op : operation) (url : string) (options : RequestOptions) (e : exn) :
  In (EvFetch url options (inl e)) (trace (call config op)) ->
  outcome (call config op) = inl e.
Proof.
  intros Hin.
  rewrite (call_outcome_after_fetch _ _ _ _ _ Hin), request_outcome.
  now rewrite (call_fetch_settled _ _ _ _ _ Hin).
Qed.

(** X3: every operation is a single attempt: a typed accessor resolves
    "proxy" once and fetches at most once; [triggerAlarm] never consults the
    discovery function and fetches exactly once. *)
Theorem single_attempt (config : ClientApiConfig) (op : operation) :
  match field_of op with
  | Some _ =>
      discovery_calls (trace (call config op)) = ["proxy"]
      /\ length (fetched_urls (trace (call config op))) <= 1
  | None =>
      discovery_calls (trace (call config op)) = []
      /\ length (fetched_urls (trace (call config op))) = 1
  end.
Proof.
  rewrite call_trace.
  destruct op; cbn [field_of];
    [ destruct (getBaseUrl (discoveryApi config) "proxy");
      split; simpl; [reflexivity | lia | reflexivity | lia] .. | ].
  split; reflexivity.
Qed.

(** [request] resolves exactly when the transport resolved with a status in
    200-299, and then with the very response the transport gave. *)
Lemma request_resolved (config : ClientApiConfig) (url : string)
    (options : RequestOptions) (response : Response) :
  outcome (request config url options) = inr response
  <-> fetch (fetchApi config) url options = inr response
      /\ ok response = true.
Proof.
  rewrite request_outcome. split.
  - destruct (fetch (fetchApi config) url options) as [e|r]; [discriminate|].
    destruct (status r =? 401)%N; [discriminate|].
    destruct (status r =? 404)%N; [discriminate|].
    destruct (ok r) eqn:Hok; cbn [negb].
    + intros H. injection H as ->. now split.
    + destruct (failure_of_rejects r) as [e ->]. discriminate.
  - intros [-> Hok].
    destruct (ok_excludes_401_404 response Hok) as [-> ->].
    now rewrite Hok.
Qed.


(** X4: [triggerAlarm] resolves exactly when the transport resolved the POST
    with a status in 200-299, and then with the very response the transport
    gave, whatever its body. *)
Theorem triggerAlarm_resolves_iff_ok (config : ClientApiConfig)
    (alarm : TriggerAlarmRequest) (response : Response) :
  outcome (triggerAlarm config alarm) = inr response
  <-> fetch (fetchApi config) (events_base config ++ "/enqueue")
        (triggerAlarm_options alarm) = inr response
      /\ ok response = true.
Proof.
  rewrite triggerAlarm_unfold. apply request_resolved.
Qed.

Lemma join_with_rejects (to_string : jsval -> result string) (sep : string)
    (elements : list jsval) (e : exn) :
  (forall x e', In x elements -> to_string x = inl e' -> e' = TypeError) ->
  join_with to_string sep elements = inl e -> e = TypeError.
Proof.
  induction elements as [|x rest IH]; intros Hall; [discriminate|].
  assert (Hx : forall e', match x with
                          | JUndefined | JNull => inr ""
                          | _ => to_string x
                          end = inl e' -> e' = TypeError).
  { intros e' H. apply (Hall x e' (or_introl eq_refl)).
    destruct x; try discriminate; exact H. }
  assert (Hrest : forall y e', In y rest -> to_string y = inl e' ->
                               e' = TypeError)
    by (intros y e' Hy; apply Hall; now right).
  specialize (IH Hrest).
  destruct rest as [|y rest'].
  - intros H. now apply Hx.
  - cbn [join_with] in IH |- *.
    match goal with
    | |- match ?h with inl _ => _ | inr _ => _ end = _ -> _ =>
        destruct h as [e'|s] eqn:Hhead
    end.
    + intros H. injection H as <-. now apply Hx.
    + match goal with
      | |- match ?t with inl _ => _ | inr _ => _ end = _ -> _ =>
          destruct t as [e'|s'] eqn:Htail
      end.
      * intros H. injection H as <-. now apply IH.
      * discriminate.
Qed.

Lemma ToString_rejects (n : nat) (v : jsval) (e : exn) :
  size v <= n -> ToString v = inl e -> e = TypeError.
Proof.
  revert v e. induction n as [|n IH]; intros v e Hsz.
  - pose proof (size_positive v). lia.
  - destruct v as [| |b|r|s|l|m]; simpl; try discriminate.
    + destruct b; discriminate.
    + apply join_with_rejects. intros x e' Hx. apply IH.
      pose proof (size_in_elements x l Hx) as Hlt.
      simpl in Hsz. unfold size_elements in Hlt. lia.
    + destruct (own_property m "toString"); [|discriminate].
      intros H. now injection H as <-.
Qed.

Lemma join_rejects (sep : string) (elements : list jsval) (e : exn) :
  join sep elements = inl e -> e = TypeError.
Proof.
  apply join_with_rejects. intros x e' _.
  apply (ToString_rejects (size x)). apply le_n.
Qed.

Lemma Get_inr_field_value (decoded : jsval) (f : field) (v : jsval) :
  Get decoded f = inr v <->
  decoded <> JNull /\ decoded <> JUndefined /\ v = field_value decoded f.
Proof.
  split.
  - destruct decoded; simpl; try discriminate;
      try (intros H; injection H as <-; repeat split; discriminate).
    destruct (own_property members (field_name f));
      intros H; injection H as <-; repeat split; discriminate.
  - intros (Hnull & Hundef & ->). now apply Get_field_value.
Qed.

(** X5: a typed accessor resolves, and then to the named property of the
    decoded body, exactly when the discovery function resolved, the
    transport answered the accessor's URL with a status in 200-299, and the
    body decodes to a value other than [null]. *)
Theorem accessor_resolves_iff (config : ClientApiConfig) (op : operation)
    (f : field) (v : jsval) :
  field_of op = Some f ->
  (outcome (call config op) = inr (Decoded v)
   <-> exists base response decoded,
         getBaseUrl (discoveryApi config) "proxy" = inr base
         /\ fetch (fetchApi config) (location op base) getByUrl_options
            = inr response
         /\ ok response = true
         /\ json_body response = Some decoded
         /\ decoded <> JNull /\ decoded <> JUndefined
         /\ v = field_value decoded f).
Proof.
  intros Hf.
  rewrite (call_accessor_outcome _ _ _ Hf), accessor_outcome. split.
  - destruct (getBaseUrl (discoveryApi config) "proxy") as [e|base];
      [discriminate|].
    destruct (outcome (request config (location op base) getByUrl_options))
      as [e|response] eqn:Hreq; [discriminate|].
    apply request_resolved in Hreq. destruct Hreq as [Hfetch Hok].
    unfold Response_json.
    destruct (json_body response) as [decoded|] eqn:Hbody; [|discriminate].
    destruct (Get decoded f) as [e|v'] eqn:Hget; [discriminate|].
    intros H. injection H as ->.
    apply Get_inr_field_value in Hget. destruct Hget as (Hn & Hu & Hv).
    now exists base, response, decoded.
  - intros (base & response & decoded & Hbase & Hfetch & Hok & Hbody
            & Hn & Hu & ->).
    rewrite Hbase.
    assert (Hreq : outcome (request config (location op base)
                              getByUrl_options) = inr response)
      by (apply request_resolved; now split).
    rewrite Hreq. unfold Response_json. rewrite Hbody.
    now rewrite (Get_field_value decoded f Hn Hu).
Qed.

(** X6: on a response with a status in 200-299, a typed accessor rejects
    with [SyntaxError] when the body is not JSON (an empty 204 body, say) and
    with [TypeError] when the body is the JSON text [null]. *)
Theorem accessor_rejects_undecodable_success (config : ClientApiConfig)
    (op : operation) (f : field) (url : string) (options : RequestOptions)
    (response : Response) :
  field_of op = Some f ->
  In (EvFetch url options (inr response)) (trace (call config op)) ->
  ok response = true ->
  (json_body response = None -> outcome (call config op) = inl SyntaxError)
  /\ (json_body response = Some JNull ->
      outcome (call config op) = inl TypeError).
Proof.
  intros Hf Hin Hok.
  rewrite (call_outcome_after_fetch _ _ _ _ _ Hin), Hf.
  assert (Hreq : outcome (request config url options) = inr response).
  { apply request_resolved. split; [|assumption].
    apply (call_fetch_settled _ _ _ _ _ Hin). }
  rewrite Hreq. unfold Response_json.
  split; intros ->; reflexivity.
Qed.

(** X7: the client raises its generic [Error] only from the failure path:
    whenever a call whose transport answered is rejected with an [Error],
    the status is outside 200-299 and is neither 401 nor 404, and the message
    starts with "Request failed with <status>, ". *)
Theorem generic_error_only_from_failure_path (config : ClientApiConfig)
    (op : operation) (url : string) (options : RequestOptions)
    (response : Response) (message : string) :
  In (EvFetch url options (inr response)) (trace (call config op)) ->
  outcome (call config op) = inl (Error message) ->
  ok response = false
  /\ status response <> 401%N /\ status response <> 404%N
  /\ exists joined,
       message = "Request failed with " ++ status_to_string (status response)
                   ++ ", " ++ joined.
Proof.
  intros Hin.
  rewrite (call_outcome_after_fetch _ _ _ _ _ Hin), request_outcome.
  rewrite (call_fetch_settled _ _ _ _ _ Hin).
  destruct (status response =? 401)%N eqn:H401; [discriminate|].
  destruct (status response =? 404)%N eqn:H404; [discriminate|].
  apply N.eqb_neq in H401, H404.
  destruct (ok response) eqn:Hok; cbn [negb].
  - destruct (field_of op) as [f|]; [|discriminate].
    unfold Response_json. destruct (json_body response) as [d|];
      [|discriminate].
    destruct d; simpl; try discriminate.
    destruct (own_property members (field_name f)); discriminate.
  - unfold failure_of, Response_json.
    destruct (json_body response) as [payload|]; [|discriminate].
    destruct (Get payload errors) as [e|errs] eqn:Hget.
    { destruct payload; simpl in Hget; try discriminate;
        try (injection Hget as <-; discriminate).
      destruct (own_property members "errors"); discriminate. }
    destruct (map_identity errs) as [e|mapped] eqn:Hmap.
    { destruct errs; simpl in Hmap; try discriminate;
        injection Hmap as <-; discriminate. }
    destruct (join " " mapped) as [e|joined] eqn:Hjoin.
    + intros H. exfalso. revert H.
      rewrite (join_rejects _ _ _ Hjoin). discriminate.
    + intros H. injection H as <-. repeat split; try assumption.
      now exists joined.
Qed.

Lemma posted_event_injective (a b : TriggerAlarmRequest) :
  posted_event a = posted_event b -> a = b.
Proof.
  destruct a as [key src descr name], b as [key' src' descr' name'].
  unfold posted_event. cbn [integrationKey source description userName].
  intros H.
  assert (Hname : name = name').
  { destruct name as [n|], name' as [n'|]; try discriminate; try reflexivity.
    injection H as _ _ _ _ Hn. now rewrite Hn. }
  injection H as Hkey Hsrc Hdescr _. congruence.
Qed.

(** X8: the body [triggerAlarm] posts determines the request: two requests
    that differ in the integration key, the source, the description or the
    user name are posted as different texts, whatever characters the fields
    hold. *)
Theorem triggerAlarm_body_injective (a b : TriggerAlarmRequest) :
  a <> b -> body (triggerAlarm_options a) <> body (triggerAlarm_options b).
Proof.
  intros Hneq Hbody. apply Hneq. apply posted_event_injective.
  unfold triggerAlarm_options in Hbody. cbn [body] in Hbody.
  rewrite !stringify_posted_event in Hbody.
  pose proof (JSON_parse_stringify as_written (posted_event a) _
                (posted_event_textual a)
                (textual_stringify _ (posted_event_textual a))) as Ha.
  pose proof (JSON_parse_stringify as_written (posted_event b) _
                (posted_event_textual b)
                (textual_stringify _ (posted_event_textual b))) as Hb.
  rewrite (textual_stringify _ (posted_event_textual a)),
    (textual_stringify _ (posted_event_textual b)) in Hbody.
  assert (Htext : element_text (posted_event a)
                  = element_text (posted_event b))
    by exact (f_equal (fun o => match o with
                                | Some t => t
                                | None => EmptyString
                                end) Hbody).
  rewrite Htext in Ha. congruence.
Qed.

(** X9: a client built by [fromConfig] always has an events base URL, the
    configured [pagerDuty.eventsBaseUrl] or else the public endpoint, and
    [triggerAlarm] posts to that URL followed by [/enqueue] without
    consulting the discovery function. *)
Theorem fromConfig_triggerAlarm_target (configApi : ConfigApi)
    (discovery : DiscoveryApi) (transport : FetchApi)
    (alarm : TriggerAlarmRequest) :
  let target :=
    match getOptionalString configApi "pagerDuty.eventsBaseUrl" with
    | Some configured => configured ++ "/enqueue"
    | None => "https://events.pagerduty.com/v2/enqueue"
    end in
  eventsBaseUrl (fromConfig configApi discovery transport) <> None
  /\ trace (triggerAlarm (fromConfig configApi discovery transport) alarm)
     = [EvFetch target (triggerAlarm_options alarm)
          (fetch transport target (triggerAlarm_options alarm))].
Proof.
  intros target. split; [discriminate|].
  rewrite triggerAlarm_unfold, request_trace, fromConfig_events_base.
  unfold target.
  destruct (getOptionalString configApi "pagerDuty.eventsBaseUrl");
    reflexivity.
Qed.

(** X10: with the proxy resolved to [base], [getOnCallByPolicyId] issues a
    GET to the URL text
    [<base>/pagerduty/oncalls?time_zone=UTC&include[]=users&escalation_policy_ids[]=<id>];
    when [base] holds no [?] or [#] and the policy id is made only of
    letters, digits, [-], [_] and [~], the part of the URL before the query
    is [<base>/pagerduty/oncalls] and the query parameters are exactly
    time_zone=UTC, include[]=users and escalation_policy_ids[]=<id>; on a
    2xx response whose body has an [oncalls] array the call resolves to
    that array. *)
Theorem oncalls_request (config : ClientApiConfig) (base id : string) :
  getBaseUrl (discoveryApi config) "proxy" = inr base ->
  let url :=
    base ++ "/pagerduty/oncalls?time_zone=UTC&include[]=users&escalation_policy_ids[]="
         ++ id in
  trace (getOnCallByPolicyId config id) = get_log config base url
  /\ (plain base = true -> safe id = true ->
      url_before_query url = base ++ "/pagerduty/oncalls"
      /\ option_map query_parameters (url_query url)
         = Some [("time_zone", "UTC"); ("include[]", "users");
                 ("escalation_policy_ids[]", id)])
  /\ (forall response members elements,
         fetch (fetchApi config) url getByUrl_options = inr response ->
         ok response = true ->
         json_body response = Some (JObj members) ->
         own_property members "oncalls" = Some (JArr elements) ->
         outcome (getOnCallByPolicyId config id) = inr (JArr elements)).
Proof.
  intros Hbase url.
  rewrite getOnCallByPolicyId_accessor. split; [|split].
  - now rewrite (accessor_log _ _ _ _ Hbase).
  - intros Hplain Hid. unfold url. split.
    + rewrite (url_before_query_plain _ _ Hplain). reflexivity.
    + rewrite (url_query_plain _ _ Hplain).
      cbn [append url_query until_hash Ascii.eqb Bool.eqb option_map].
      rewrite (until_hash_safe _ Hid). unfold query_parameters.
      cbn [segments Ascii.eqb Bool.eqb].
      rewrite (segments_safe _ Hid). reflexivity.
  - intros response members elements Hfetch Hok Hbody Hfield.
    now apply (accessor_resolves _ _ _ base response members).
Qed.

(** X11: a service id of the form [<pre>?<post>] ends the path early.  When
    [base] holds no [?] or [#] and [pre] and [post] are made only of
    letters, digits, [-], [_] and [~], [getServiceByServiceId] and
    [getChangeEventsByServiceId] both request
    [<base>/pagerduty/services/<pre>], and the query
    starts inside the id and takes in the rest of the template:
    [<post>/change_events?limit=5&time_zone=UTC&sort_by=timestamp] for the
    change events. *)
Theorem path_id_with_question_mark (config : ClientApiConfig)
    (base pre post : string) :
  getBaseUrl (discoveryApi config) "proxy" = inr base ->
  plain base = true -> safe pre = true -> safe post = true ->
  let id := pre ++ "?" ++ post in
  map url_before_query
      (fetched_urls (trace (getServiceByServiceId config id)))
  = [base ++ "/pagerduty/services/" ++ pre]
  /\ map url_query
         (fetched_urls (trace (getServiceByServiceId config id)))
     = [Some (post
                ++ "?time_zone=UTC&include[]=integrations&include[]=escalation_policies")]
  /\ map url_before_query
         (fetched_urls (trace (getChangeEventsByServiceId config id)))
     = [base ++ "/pagerduty/services/" ++ pre]
  /\ map url_query
         (fetched_urls (trace (getChangeEventsByServiceId config id)))
     = [Some (post
                ++ "/change_events?limit=5&time_zone=UTC&sort_by=timestamp")].
Proof.
  intros Hbase Hplain Hpre Hpost id.
  pose proof (safe_plain _ Hpre) as Hpre'.
  rewrite getServiceByServiceId_accessor, getChangeEventsByServiceId_accessor.
  rewrite !(accessor_log _ _ _ _ Hbase).
  cbn [get_log fetched_urls map location]. unfold id.
  rewrite !append_assoc.
  rewrite !(url_before_query_plain _ _ Hplain), !(url_query_plain _ _ Hplain).
  cbn [append url_before_query url_query ends_path Ascii.eqb Bool.eqb orb].
  rewrite !(url_before_query_plain _ _ Hpre'), !(url_query_plain _ _ Hpre').
  cbn [append url_before_query url_query ends_path Ascii.eqb Bool.eqb orb].
  rewrite !(until_hash_safe_append _ _ Hpost), !append_empty_r.
  repeat split.
Qed.

Lemma join_entries (sep : string) (entries : list (option string)) :
  join sep (map entry entries)
  = inr (String.concat sep (map entry_text entries)).
Proof.
  unfold join.
  induction entries as [|e rest IH]; [reflexivity|].
  destruct rest as [|e' rest'].
  - destruct e; reflexivity.
  - change (map entry (e :: e' :: rest'))
      with (entry e :: entry e' :: map entry rest').
    change (map entry (e' :: rest')) with (entry e' :: map entry rest') in IH.
    change (map entry_text (e :: e' :: rest'))
      with (entry_text e :: entry_text e' :: map entry_text rest').
    change (map entry_text (e' :: rest'))
      with (entry_text e' :: map entry_text rest') in IH.
    rewrite concat_cons2.
    cbn [join_with]. cbn [join_with] in IH. rewrite IH.
    destruct e; reflexivity.
Qed.

(** X12: on the failure path a [null] entry of the [errors] array counts as
    the empty string: when the entries are strings or [null], the message is
    "Request failed with <status>, " followed by the entries joined with
    single spaces, each [null] contributing nothing between its spaces. *)
Theorem generic_failure_message_with_nulls (config : ClientApiConfig)
    (op : operation) (url : string) (options : RequestOptions)
    (response : Response) (members : list (string * jsval))
    (entries : list (option string)) :
  In (EvFetch url options (inr response)) (trace (call config op)) ->
  ok response = false ->
  status response <> 401%N -> status response <> 404%N ->
  json_body response = Some (JObj members) ->
  own_property members "errors" = Some (JArr (map entry entries)) ->
  outcome (call config op)
  = inl (Error ("Request failed with " ++ status_to_string (status response)
                  ++ ", " ++ String.concat " " (map entry_text entries))).
Proof.
  intros Hin Hok H401 H404 Hbody Herrors.
  apply (call_fails_with_request config op url options response _ Hin).
  rewrite (request_other_failure config op url options response)
    by assumption.
  unfold failure_of, Response_json. rewrite Hbody.
  cbn [Get field_name]. rewrite Herrors.
  cbn [map_identity]. rewrite map_id, join_entries. reflexivity.
Qed.

Lemma failure_of_kinds (response : Response) (e : exn) :
  failure_of response = inl e ->
  e = SyntaxError \/ e = TypeError \/ exists message, e = Error message.
Proof.
  unfold failure_of, Response_json.
  destruct (json_body response) as [payload|];
    [|intros H; injection H as <-; now left].
  destruct (Get payload errors) as [e'|errs] eqn:Hget.
  { intros H. injection H as <-. right. left.
    destruct payload; simpl in Hget; try discriminate;
      try (now injection Hget as <-).
    destruct (own_property members "errors"); discriminate. }
  destruct (map_identity errs) as [e'|mapped] eqn:Hmap.
  { intros H. injection H as <-. right. left.
    destruct errs; simpl in Hmap; try discriminate; now injection Hmap as <-. }
  destruct (join " " mapped) as [e'|joined] eqn:Hjoin.
  - intros H. injection H as <-. right. left. exact (join_rejects _ _ _ Hjoin).
  - intros H. injection H as <-. right. right. eexists. reflexivity.
Qed.

(** X13: the two distinguished errors come from their status codes only:
    when a call whose transport answered is rejected with
    [UnauthorizedError] the status was 401, and when it is rejected with
    [NotFoundError] the status was 404. *)
Theorem distinguished_errors_only_from_status (config : ClientApiConfig)
    (op : operation) (url : string) (options : RequestOptions)
    (response : Response) :
  In (EvFetch url options (inr response)) (trace (call config op)) ->
  (outcome (call config op) = inl UnauthorizedError ->
   status response = 401%N)
  /\ (outcome (call config op) = inl NotFoundError ->
      status response = 404%N).
Proof.
  intros Hin.
  rewrite (call_outcome_after_fetch _ _ _ _ _ Hin), request_outcome.
  rewrite (call_fetch_settled _ _ _ _ _ Hin).
  destruct (status response =? 401)%N eqn:H401.
  { apply N.eqb_eq in H401. split; [trivial | discriminate]. }
  destruct (status response =? 404)%N eqn:H404.
  { apply N.eqb_eq in H404. split; [discriminate | trivial]. }
  assert (Hnone : forall e : exn,
             e = UnauthorizedError \/ e = NotFoundError ->
             match (if negb (ok response) then failure_of response
                    else inr response) with
             | inl e' => inl e'
             | inr r =>
                 match field_of op with
                 | None => inr (Raw r)
                 | Some f =>
                     match Response_json r with
                     | inl e' => inl e'
                     | inr decoded =>
                         match Get decoded f with
                         | inl e' => inl e'
                         | inr v => inr (Decoded v)
                         end
                     end
                 end
             end <> inl e).
  { intros e He.
    destruct (negb (ok response)).
    - destruct (failure_of response) as [e'|r] eqn:Hfail.
      + intros H. injection H as ->.
        destruct (failure_of_kinds _ _ Hfail) as [->|[->|[m ->]]];
          destruct He; discriminate.
      + destruct (failure_of_rejects response) as [e' He'].
        rewrite He' in Hfail. discriminate.
    - destruct (field_of op) as [f|]; [|discriminate].
      unfold Response_json.
      destruct (json_body response) as [d|];
        [|intros H; injection H as <-; destruct He; discriminate].
      destruct (Get d f) as [e'|v] eqn:Hget; [|discriminate].
      intros H. injection H as ->.
      destruct d; simpl in Hget; try discriminate;
        try (injection Hget as <-; destruct He; discriminate).
      destruct (own_property members (field_name f)); discriminate. }
  split; intros H; exfalso; revert H; apply Hnone; [now left | now right].
Qed.

(** ** Concrete scenarios for the further properties *)

Lemma discovery_rejection_propagates_witness :
  field_of (GetServiceByServiceId "def456") = Some service
  /\ getBaseUrl (discoveryApi (unreachable_discovery service_stub)) "proxy"
     = inl (Rejection "no proxy")
  /\ outcome (call (unreachable_discovery service_stub)
                (GetServiceByServiceId "def456"))
     = inl (Rejection "no proxy")
  /\ fetched_urls (trace (call (unreachable_discovery service_stub)
                            (GetServiceByServiceId "def456"))) = [].
Proof.
  split; [reflexivity|]. split; [reflexivity|].
  exact (discovery_rejection_propagates (unreachable_discovery service_stub)
           (GetServiceByServiceId "def456") service (Rejection "no proxy")
           eq_refl eq_refl).
Defined.

Lemma transport_rejection_propagates_witness :
  In (EvFetch "https://events.pagerduty.com/v2/enqueue"
        (triggerAlarm_options sample_alarm)
        (inl (Rejection "Failed to fetch")))
     (trace (call (unreachable_transport proxy_base)
               (TriggerAlarm sample_alarm)))
  /\ outcome (call (unreachable_transport proxy_base)
                (TriggerAlarm sample_alarm))
     = inl (Rejection "Failed to fetch").
Proof.
  assert (Hin : In (EvFetch "https://events.pagerduty.com/v2/enqueue"
                      (triggerAlarm_options sample_alarm)
                      (inl (Rejection "Failed to fetch")))
                   (trace (call (unreachable_transport proxy_base)
                             (TriggerAlarm sample_alarm))))
    by (left; reflexivity).
  split; [exact Hin|].
  exact (transport_rejection_propagates _ _ _ _ _ Hin).
Defined.

Lemma accessor_resolves_iff_witness :
  field_of (GetServiceByServiceId "def456") = Some service
  /\ outcome (call (stub_config proxy_base service_stub)
                (GetServiceByServiceId "def456"))
     = inr (Decoded (JObj [("id", JStr "def456"); ("name", JStr "X")])).
Proof.
  split; [reflexivity|].
  apply (proj2 (accessor_resolves_iff (stub_config proxy_base service_stub)
                  (GetServiceByServiceId "def456") service
                  (JObj [("id", JStr "def456"); ("name", JStr "X")])
                  eq_refl)).
  exists proxy_base, service_stub,
    (JObj [("service", JObj [("id", JStr "def456"); ("name", JStr "X")])]).
  split; [reflexivity|]. split; [reflexivity|]. split; [reflexivity|].
  split; [reflexivity|]. split; [discriminate|]. split; [discriminate|].
  reflexivity.
Defined.

Lemma accessor_rejects_undecodable_success_witness :
  field_of (GetIncidentsByServiceId "S1") = Some incidents
  /\ In (EvFetch (location (GetIncidentsByServiceId "S1") proxy_base)
           getByUrl_options (inr empty_stub))
        (trace (call (stub_config proxy_base empty_stub)
                  (GetIncidentsByServiceId "S1")))
  /\ ok empty_stub = true
  /\ json_body empty_stub = None
  /\ outcome (call (stub_config proxy_base empty_stub)
                (GetIncidentsByServiceId "S1"))
     = inl SyntaxError.
Proof.
  assert (Hin : In (EvFetch (location (GetIncidentsByServiceId "S1")
                               proxy_base)
                      getByUrl_options (inr empty_stub))
                   (trace (call (stub_config proxy_base empty_stub)
                             (GetIncidentsByServiceId "S1"))))
    by (right; left; reflexivity).
  split; [reflexivity|]. split; [exact Hin|]. split; [reflexivity|].
  split; [reflexivity|].
  exact (proj1 (accessor_rejects_undecodable_success
                  (stub_config proxy_base empty_stub)
                  (GetIncidentsByServiceId "S1") incidents _ _ _
                  eq_refl Hin eq_refl) eq_refl).
Defined.

Lemma generic_error_only_from_failure_path_witness :
  In (EvFetch (location (GetOnCallByPolicyId "P1") proxy_base)
        getByUrl_options (inr failing_stub))
     (trace (call (stub_config proxy_base failing_stub)
               (GetOnCallByPolicyId "P1")))
  /\ outcome (call (stub_config proxy_base failing_stub)
                (GetOnCallByPolicyId "P1"))
     = inl (Error "Request failed with 500, Invalid Input Provided Bad token")
  /\ ok failing_stub = false
  /\ status failing_stub <> 401%N /\ status failing_stub <> 404%N
  /\ exists joined,
       "Request failed with 500, Invalid Input Provided Bad token"
       = "Request failed with " ++ status_to_string (status failing_stub)
           ++ ", " ++ joined.
Proof.
  assert (Hin : In (EvFetch (location (GetOnCallByPolicyId "P1") proxy_base)
                      getByUrl_options (inr failing_stub))
                   (trace (call (stub_config proxy_base failing_stub)
                             (GetOnCallByPolicyId "P1"))))
    by (right; left; reflexivity).
  assert (Hout : outcome (call (stub_config proxy_base failing_stub)
                            (GetOnCallByPolicyId "P1"))
                 = inl (Error "Request failed with 500, Invalid Input Provided Bad token"))
    by reflexivity.
  split; [exact Hin|]. split; [exact Hout|].
  exact (generic_error_only_from_failure_path _ _ _ _ _ _ Hin Hout).
Defined.

Lemma triggerAlarm_body_injective_witness :
  sample_alarm <> named_alarm
  /\ body (triggerAlarm_options sample_alarm)
     <> body (triggerAlarm_options named_alarm).
Proof.
  assert (Hneq : sample_alarm <> named_alarm) by discriminate.
  split; [exact Hneq|].
  exact (triggerAlarm_body_injective sample_alarm named_alarm Hneq).
Defined.

Lemma oncalls_request_witness :
  getBaseUrl (discoveryApi (stub_config proxy_base service_stub)) "proxy"
  = inr proxy_base
  /\ plain proxy_base = true /\ safe "P1" = true
  /\ fetched_urls
       (trace (getOnCallByPolicyId
                 (stub_config proxy_base service_stub) "P1"))
     = ["http://localhost:7007/api/proxy/pagerduty/oncalls?time_zone=UTC&include[]=users&escalation_policy_ids[]=P1"]
  /\ option_map query_parameters
       (url_query
          "http://localhost:7007/api/proxy/pagerduty/oncalls?time_zone=UTC&include[]=users&escalation_policy_ids[]=P1")
     = Some [("time_zone", "UTC"); ("include[]", "users");
             ("escalation_policy_ids[]", "P1")].
Proof.
  split; [reflexivity|]. split; [reflexivity|]. split; [reflexivity|].
  destruct (oncalls_request (stub_config proxy_base service_stub)
              proxy_base "P1" eq_refl) as (Hlog & Hparts & _).
  split; [rewrite Hlog; reflexivity|].
  exact (proj2 (Hparts eq_refl eq_refl)).
Defined.

Lemma path_id_with_question_mark_witness :
  getBaseUrl (discoveryApi (stub_config proxy_base service_stub)) "proxy"
  = inr proxy_base
  /\ plain proxy_base = true
  /\ safe "S1" = true /\ safe "expand" = true
  /\ map url_before_query
         (fetched_urls
            (trace (getChangeEventsByServiceId
                      (stub_config proxy_base service_stub) "S1?expand")))
     = ["http://localhost:7007/api/proxy/pagerduty/services/S1"]
  /\ map url_query
         (fetched_urls
            (trace (getChangeEventsByServiceId
                      (stub_config proxy_base service_stub) "S1?expand")))
     = [Some "expand/change_events?limit=5&time_zone=UTC&sort_by=timestamp"].
Proof.
  split; [reflexivity|]. split; [reflexivity|].
  split; [reflexivity|]. split; [reflexivity|].
  destruct (path_id_with_question_mark
              (stub_config proxy_base service_stub) proxy_base
              "S1" "expand" eq_refl eq_refl eq_refl eq_refl)
    as (_ & _ & Hpath & Hquery).
  split; [exact Hpath | exact Hquery].
Defined.

Lemma generic_failure_message_with_nulls_witness :
  In (EvFetch (location (GetServiceByIntegrationKey "abc123") proxy_base)
        getByUrl_options (inr nullable_errors_stub))
     (trace (call (stub_config proxy_base nullable_errors_stub)
               (GetServiceByIntegrationKey "abc123")))
  /\ ok nullable_errors_stub = false
  /\ status nullable_errors_stub <> 401%N
  /\ status nullable_errors_stub <> 404%N
  /\ json_body nullable_errors_stub
     = Some (JObj [("errors",
                    JArr (map entry [Some "Invalid"; None; Some "Input"]))])
  /\ outcome (call (stub_config proxy_base nullable_errors_stub)
                (GetServiceByIntegrationKey "abc123"))
     = inl (Error "Request failed with 400, Invalid  Input").
Proof.
  assert (Hin : In (EvFetch (location (GetServiceByIntegrationKey "abc123")
                               proxy_base)
                      getByUrl_options (inr nullable_errors_stub))
                   (trace (call (stub_config proxy_base nullable_errors_stub)
                             (GetServiceByIntegrationKey "abc123"))))
    by (right; left; reflexivity).
  assert (H401 : status nullable_errors_stub <> 401%N) by discriminate.
  assert (H404 : status nullable_errors_stub <> 404%N) by discriminate.
  assert (Hbody : json_body nullable_errors_stub
                  = Some (JObj [("errors",
                                 JArr (map entry [Some "Invalid"; None;
                                                  Some "Input"]))]))
    by reflexivity.
  split; [exact Hin|]. split; [reflexivity|].
  split; [exact H401|]. split; [exact H404|]. split; [exact Hbody|].
  exact (generic_failure_message_with_nulls _ _ _ _ _ _
           [Some "Invalid"; None; Some "Input"]
           Hin eq_refl H401 H404 Hbody eq_refl).
Defined.

Lemma distinguished_errors_only_from_status_witness :
  In (EvFetch (location (GetServiceByServiceId "def456") proxy_base)
        getByUrl_options (inr unauthorized_stub))
     (trace (call (stub_config proxy_base unauthorized_stub)
               (GetServiceByServiceId "def456")))
  /\ outcome (call (stub_config proxy_base unauthorized_stub)
                (GetServiceByServiceId "def456"))
     = inl UnauthorizedError
  /\ status unauthorized_stub = 401%N.
Proof.
  assert (Hin : In (EvFetch (location (GetServiceByServiceId "def456")
                               proxy_base)
                      getByUrl_options (inr unauthorized_stub))
                   (trace (call (stub_config proxy_base unauthorized_stub)
                             (GetServiceByServiceId "def456"))))
    by (right; left; reflexivity).
  assert (Hout : outcome (call (stub_config proxy_base unauthorized_stub)
                            (GetServiceByServiceId "def456"))
                 = inl UnauthorizedError) by reflexivity.
  split; [exact Hin|]. split; [exact Hout|].
  exact (proj1 (distinguished_errors_only_from_status _ _ _ _ _ Hin) Hout).
Defined.
